(** * A shallow embedding of [game_board.py] (AlphaZero Gomoku)

    The file follows the Python source class by class: the [Board] object
    (sparse occupancy dictionary, list of available moves, bounded move
    history, win and forbidden-move detection, feature-plane encoding) and
    the self-play loop of [Game].

    Conventions of the embedding.
    - Python integers are unbounded, hence [Z].  [//] and [%] are [Z.div]
      and [Z.modulo]: floor division and a remainder with the sign of the
      divisor, which is Python's behaviour for every non-zero divisor.
      Statements that divide by [width] or [height] assume them positive.
    - The dictionary [states] is a [gmap Z Z]; the list [availables] and the
      deque [states_sequence] are lists.
    - A method that only reads the board is a function of the board that
      returns a [res] (a value or the exception raised).  A method that
      assigns to attributes returns an [outcome]: the board as the call
      leaves it, together with the exception when one is raised, so that
      the writes made before a [raise] stay visible.
    - numpy arrays of floats that only ever hold [0.0] and [1.0] are nested
      lists of [Z] holding [0] and [1]. *)

From Stdlib Require Import ZArith String Ascii List Lia Permutation.
From stdpp Require Import base tactics option list numbers gmap sets fin_maps strings.

Local Open Scope Z_scope.
Set Warnings "-clear-no-such-hyp".

(** ** Exceptions, results and outcomes *)

Inductive exn : Set :=
| ValueError
| KeyError
| IndexError
| PyException.

Inductive res (A : Type) : Type :=
| Ret (a : A)
| Exc (e : exn).
Arguments Ret {A} a.
Arguments Exc {A} e.

#[global] Instance res_ret : MRet res := fun A a => Ret a.
#[global] Instance res_bind : MBind res := fun A B k m =>
  match m with
  | Ret a => k a
  | Exc e => Exc e
  end.

(** [d[k]] on a dictionary: [KeyError] when the key is absent. *)
Definition dict_getitem (d : gmap Z Z) (k : Z) : res Z :=
  match d !! k with
  | Some v => Ret v
  | None => Exc KeyError
  end.

(** [d.get(k, default)]. *)
Definition dict_get (d : gmap Z Z) (k default : Z) : Z :=
  match d !! k with
  | Some v => v
  | None => default
  end.

(** [l[i]] on a Python list: negative indices count from the end, anything
    outside [-len, len) raises [IndexError]. *)
Definition list_getitem {A} (l : list A) (i : Z) : res A :=
  let len := Z.of_nat (length l) in
  let j := if i <? 0 then i + len else i in
  if (0 <=? j) && (j <? len) then
    match l !! Z.to_nat j with
    | Some x => Ret x
    | None => Exc IndexError
    end
  else Exc IndexError.

(** [l.remove(x)]: drops the first occurrence, [None] stands for the
    [ValueError] raised when there is none. *)
Fixpoint list_remove (x : Z) (l : list Z) : option (list Z) :=
  match l with
  | [] => None
  | y :: l' =>
      if Z.eqb y x then Some l'
      else match list_remove x l' with
           | Some r => Some (y :: r)
           | None => None
           end
  end.

(** [deque(maxlen=n).appendleft(x)]: a full deque drops its right end. *)
Definition deque_appendleft {A} (maxlen : nat) (x : A) (d : list A) : list A :=
  take maxlen (x :: d).

(** ** The board object *)

Record Board : Type := mkBoard {
  width : Z;
  height : Z;
  n_in_row : Z;
  states : gmap Z Z;
  states_sequence : list (Z * Z);
  current_player : Z;
  availables : list Z;
  last_move : Z
}.

(** [self.players = [1, 2]] and [self.feature_planes = 8] are set once in
    [__init__] and never assigned again; [player1] and [player2] stand for
    [self.players[0]] and [self.players[1]]. *)
Definition player1 : Z := 1.
Definition player2 : Z := 2.
Definition players : list Z := [player1; player2].
Definition feature_planes : nat := 8.

(** [[[-1, -1]] * feature_planes] pushed on an empty deque. *)
Definition empty_history : list (Z * Z) := replicate feature_planes (-1, -1).

(** [Board(width=w, height=h, n_in_row=n)].  [__init__] creates [width],
    [height], [states], [n_in_row], [players], [feature_planes] and
    [states_sequence]; the attributes [current_player], [availables] and
    [last_move] only come into being in [init_board], which every caller
    in [Game] runs first.  They are given placeholder values here that
    [init_board] overwrites. *)
Definition new_board (w h n : Z) : Board :=
  {| width := w; height := h; n_in_row := n;
     states := ∅; states_sequence := empty_history;
     current_player := 0; availables := []; last_move := -1 |}.

Inductive outcome : Type :=
| Done (b : Board)
| Raised (e : exn) (b : Board).

Definition set_states (f : gmap Z Z -> gmap Z Z) (b : Board) : Board :=
  {| width := width b; height := height b; n_in_row := n_in_row b;
     states := f (states b); states_sequence := states_sequence b;
     current_player := current_player b; availables := availables b;
     last_move := last_move b |}.

Definition set_states_sequence (f : list (Z * Z) -> list (Z * Z)) (b : Board) : Board :=
  {| width := width b; height := height b; n_in_row := n_in_row b;
     states := states b; states_sequence := f (states_sequence b);
     current_player := current_player b; availables := availables b;
     last_move := last_move b |}.

Definition set_current_player (p : Z) (b : Board) : Board :=
  {| width := width b; height := height b; n_in_row := n_in_row b;
     states := states b; states_sequence := states_sequence b;
     current_player := p; availables := availables b;
     last_move := last_move b |}.

Definition set_availables (l : list Z) (b : Board) : Board :=
  {| width := width b; height := height b; n_in_row := n_in_row b;
     states := states b; states_sequence := states_sequence b;
     current_player := current_player b; availables := l;
     last_move := last_move b |}.

Definition set_last_move (m : Z) (b : Board) : Board :=
  {| width := width b; height := height b; n_in_row := n_in_row b;
     states := states b; states_sequence := states_sequence b;
     current_player := current_player b; availables := availables b;
     last_move := m |}.

(** [Board.init_board(start_player)]. *)
Definition init_board (start_player : Z) (b : Board) : outcome :=
  if (width b <? n_in_row b) || (height b <? n_in_row b) then
    Raised PyException b
  else
    match list_getitem players start_player with
    | Exc e => Raised e b
    | Ret p =>
        let b := set_current_player p b in
        let b := set_availables (seqZ 0 (width b * height b)) b in
        let b := set_states (fun _ => ∅) b in
        let b := set_last_move (-1) b in
        let b := set_states_sequence (fun _ => empty_history) b in
        Done b
    end.

(** [Board.move_to_location(move)]. *)
Definition move_to_location (b : Board) (move : Z) : list Z :=
  let h := move / width b in
  let w := move mod width b in
  [h; w].

(** [Board.location_to_move(location)], for a sequence of integers. *)
Definition location_to_move (b : Board) (location : list Z) : Z :=
  match location with
  | [h; w] =>
      let move := h * width b + w in
      if (0 <=? move) && (move <? width b * height b) then move else -1
  | _ => -1
  end.

(** [Board.do_move(move)]. *)
Definition do_move (move : Z) (b : Board) : outcome :=
  let b := set_states (fun s => <[move := current_player b]> s) b in
  let b :=
    set_states_sequence
      (deque_appendleft feature_planes (move, current_player b)) b in
  match list_remove move (availables b) with
  | None => Raised ValueError b
  | Some av =>
      let b := set_availables av b in
      let b :=
        set_current_player
          (if current_player b =? player2 then player1 else player2) b in
      let b := set_last_move move b in
      Done b
  end.

(** [Board.get_current_player()]. *)
Definition get_current_player (b : Board) : Z := current_player b.

(** ** Rule engine: lines through a move and pattern search *)

Definition in_board (b : Board) (nx ny : Z) : bool :=
  (0 <=? nx) && (nx <? width b) && (0 <=? ny) && (ny <? height b).

(** The symbol of one cell, as both loops of [get_line] compute it. *)
Definition cell_symbol (b : Board) (pos : Z) : string :=
  match states b !! pos with
  | Some p => if p =? player1 then "X" else "O"
  | None => "."
  end.

(** The first [while] of [get_line]: symbols are put in front of [line]. *)
Fixpoint line_backward (fuel : nat) (b : Board) (dx dy nx ny : Z)
    (line : string) : string :=
  match fuel with
  | O => line
  | S fuel =>
      if in_board b nx ny then
        let pos := ny * width b + nx in
        line_backward fuel b dx dy (nx - dx) (ny - dy)
          (cell_symbol b pos ++ line)
      else line
  end.

(** The second [while] of [get_line]: symbols are put behind [line]. *)
Fixpoint line_forward (fuel : nat) (b : Board) (dx dy nx ny : Z)
    (line : string) : string :=
  match fuel with
  | O => line
  | S fuel =>
      if in_board b nx ny then
        let pos := ny * width b + nx in
        line_forward fuel b dx dy (nx + dx) (ny + dy)
          (line ++ cell_symbol b pos)
      else line
  end.

(** The body of [get_line] with both loops cut at [fuel] turns. *)
Definition get_line_within (fuel : nat) (b : Board) (move dx dy : Z)
    : res string :=
  let x := move mod width b in
  let y := move / width b in
  let line := line_backward fuel b dx dy (x - dx) (y - dy) "" in
  p ← dict_getitem (states b) move;
  let line := (line ++ (if Z.eqb p player1 then "X" else "O"))%string in
  Ret (line_forward fuel b dx dy (x + dx) (y + dy) line).

(** Every step of either loop moves a coordinate by one, so a walk leaves
    the board after at most [max width height] steps. *)
Definition line_fuel (b : Board) : nat := Z.to_nat (Z.max (width b) (height b)).

(** [Board.get_line(move, dx, dy)]. *)
Definition get_line (b : Board) (move dx dy : Z) : res string :=
  get_line_within (line_fuel b) b move dx dy.

(** [s * k] on a Python string. *)
Definition str_repeat (s : string) (k : Z) : string :=
  Nat.iter (Z.to_nat k) (fun acc => (s ++ acc)%string) ""%string.

(** [pat in line]. *)
Fixpoint str_contains (pat line : string) : bool :=
  String.prefix pat line
  || match line with
     | EmptyString => false
     | String _ rest => str_contains pat rest
     end.

(** [len(re.findall(pattern, line))] for a pattern that matches one literal
    text [pat]: the scan goes left to right and resumes behind each match.
    [skip] counts the characters of the current match still to step over. *)
Fixpoint count_from (pat : string) (skip : nat) (line : string) : Z :=
  match line with
  | EmptyString => 0
  | String _ rest =>
      match skip with
      | S k => count_from pat k rest
      | O =>
          if String.prefix pat line
          then 1 + count_from pat (Nat.pred (String.length pat)) rest
          else count_from pat O rest
      end
  end.

(** [Board.count_pattern(line, pattern)].  Every pattern the board builds
    is [\.] and copies of the target letter, a regular expression that
    matches exactly the text [pat] with [.] for [\.]; [pat] is never
    empty. *)
Definition count_pattern (line pat : string) : Z := count_from pat O line.

Definition directions : list (Z * Z) := [(1, 0); (0, 1); (1, 1); (1, -1)].

(** The [for dx, dy in directions] loop of [check_forbidden_move]; [Some]
    is a [return] from inside the loop. *)
Fixpoint forbidden_scan (b : Board) (move : Z) (target : string)
    (dirs : list (Z * Z)) (open_three open_four : Z)
    : res (bool + Z * Z) :=
  match dirs with
  | [] => Ret (inr (open_three, open_four))
  | (dx, dy) :: dirs =>
      line ← get_line b move dx dy;
      if str_contains (str_repeat target (n_in_row b + 1)) line then
        Ret (inl true)
      else
        let open_four :=
          open_four + count_pattern line ("." ++ str_repeat target 4 ++ ".") in
        let open_three :=
          open_three + count_pattern line ("." ++ str_repeat target 3 ++ ".") in
        let open_three :=
          open_three
          + count_pattern line
              ("." ++ str_repeat target 2 ++ "." ++ target ++ ".") in
        let open_three :=
          open_three
          + count_pattern line
              ("." ++ target ++ "." ++ str_repeat target 2 ++ ".") in
        forbidden_scan b move target dirs open_three open_four
  end.

(** [Board.check_forbidden_move(move, player)]. *)
Definition check_forbidden_move (b : Board) (move player : Z) : res bool :=
  let target := if player =? player1 then "X"%string else "O"%string in
  r ← forbidden_scan b move target directions 0 0;
  match r with
  | inl answer => Ret answer
  | inr (open_three, open_four) =>
      if 2 <=? open_four then Ret true
      else if 2 <=? open_three then Ret true
      else Ret false
  end.

(** ** Rule engine: win detection *)

(** [all(states.get(m + i * step, -1) == player for i in range(n))]. *)
Definition run_from (b : Board) (m step player : Z) : bool :=
  forallb (fun i => dict_get (states b) (m + i * step) (-1) =? player)
    (seqZ 0 (n_in_row b)).

(** The body of [for m in moved]; [Some] is a [return] from the loop. *)
Definition check_cell (b : Board) (m : Z) : res (option (bool * Z)) :=
  let w_ := width b in
  let h_ := height b in
  let n := n_in_row b in
  let h := m / w_ in
  let w := m mod w_ in
  player ← dict_getitem (states b) m;
  if (w <=? w_ - n) && run_from b m 1 player then
    Ret (Some (true, player))
  else if (h <=? h_ - n) && run_from b m w_ player then
    Ret (Some (true, player))
  else if (w <=? w_ - n) && (h <=? h_ - n) && run_from b m (w_ + 1) player then
    Ret (Some (true, player))
  else if (n - 1 <=? w) && (h <=? h_ - n) && run_from b m (w_ - 1) player then
    Ret (Some (true, player))
  else Ret None.

Fixpoint scan_cells (b : Board) (moved : list Z) : res (option (bool * Z)) :=
  match moved with
  | [] => Ret None
  | m :: moved =>
      r ← check_cell b m;
      match r with
      | Some answer => Ret (Some answer)
      | None => scan_cells b moved
      end
  end.

(** The cells of [set(range(width * height)) - set(self.availables)]. *)
Definition moved_set (b : Board) : gset Z :=
  list_to_set (seqZ 0 (width b * height b)) ∖ list_to_set (availables b).

(** The tail of [has_a_winner]: the forbidden-move test on the last move. *)
Definition last_move_forbidden (b : Board) : res bool :=
  if last_move b =? -1 then Ret false
  else
    player ← dict_getitem (states b) (last_move b);
    if player =? player1 then check_forbidden_move b (last_move b) player
    else Ret false.

(** [Board.has_a_winner()], with the list [moved] in hand.  Python leaves
    the iteration order of a set open, so the order in which
    [list(set(...) - set(...))] enumerates the played cells is an argument
    here: [moved] is any enumeration of [moved_set]. *)
Definition has_a_winner_in (moved : list Z) (b : Board) : res (bool * Z) :=
  if Z.of_nat (length moved) <? n_in_row b then Ret (false, -1)
  else
    r ← scan_cells b moved;
    match r with
    | Some answer => Ret answer
    | None =>
        f ← last_move_forbidden b;
        if (f : bool) then Ret (true, player2) else Ret (false, -1)
    end.

(** [Board.game_end()] over the same enumeration. *)
Definition game_end_in (moved : list Z) (b : Board) : res (bool * Z) :=
  r ← has_a_winner_in moved b;
  let end_ := fst (r : bool * Z) in
  let winner := snd r in
  if end_ then Ret (true, winner)
  else if Z.of_nat (length (availables b)) =? 0 then Ret (true, -1)
  else Ret (false, -1).

(** The two methods with one fixed enumeration of the played cells. *)
Definition has_a_winner (b : Board) : res (bool * Z) :=
  has_a_winner_in (elements (moved_set b)) b.

Definition game_end (b : Board) : res (bool * Z) :=
  game_end_in (elements (moved_set b)) b.

(** ** Feature planes *)

(** One plane of [square_state] is a list of rows; the array is the list
    of its planes.  As allocated by [np.zeros((feature_planes + 1,
    self.width, self.height))] a plane has [width] rows of [height]
    entries. *)
Abbreviation plane := (list (list Z)).
Abbreviation tensor := (list (list (list Z))).

(** [np.zeros(shape)] refuses a negative dimension. *)
Definition np_zeros (k : nat) (d1 d2 : Z) : res tensor :=
  if (d1 <? 0) || (d2 <? 0) then Exc ValueError
  else Ret (replicate k (replicate (Z.to_nat d1) (replicate (Z.to_nat d2) 0))).

(** An index into an axis of length [dim]: negative indices wrap once,
    anything outside [-dim, dim) raises [IndexError]. *)
Definition np_index (dim i : Z) : res nat :=
  if (- dim <=? i) && (i <? dim) then
    Ret (Z.to_nat (if i <? 0 then i + dim else i))
  else Exc IndexError.

(** [P[r, c] = v] on a plane of shape [d1 x d2]. *)
Definition plane_set (d1 d2 : Z) (v : Z) (P : plane) (rc : Z * Z) : res plane :=
  i ← np_index d1 (fst rc);
  j ← np_index d2 (snd rc);
  Ret (alter (fun row => <[j := v]> row) i P).

(** [P[rows, cols] = v] with two index arrays of equal length, given as
    the list of their pairs. *)
Fixpoint plane_set_many (d1 d2 : Z) (v : Z) (idx : list (Z * Z)) (P : plane)
    : res plane :=
  match idx with
  | [] => Ret P
  | rc :: idx => P' ← plane_set d1 d2 v P rc; plane_set_many d1 d2 v idx P'
  end.

(** [square_state[i][rows, cols] = v]. *)
Definition tensor_set (d1 d2 : Z) (i : nat) (v : Z) (idx : list (Z * Z))
    (T : tensor) : res tensor :=
  match T !! i with
  | Some P => P' ← plane_set_many d1 d2 v idx P; Ret (<[i := P']> T)
  | None => Exc IndexError
  end.

(** [moves[players == p]] and [moves[players != p]] over the items of the
    dictionary.  A [gmap] forgets the insertion order of the dictionary;
    the planes do not depend on it, every write stores the same value. *)
Definition moves_of (b : Board) (keep : Z -> bool) : list Z :=
  fst <$> filter (fun mp => keep (snd mp) = true) (map_to_list (states b)).

(** The pair of index arrays [(moves // width, moves % height)]. *)
Definition plane_index (b : Board) (m : Z) : Z * Z :=
  (m / width b, m mod height b).

(** [for i in range(self.feature_planes)]: even planes receive the
    opponent's moves, odd planes the current player's. *)
Fixpoint fill_planes (b : Board) (move_curr move_oppo : list Z)
    (planes : list nat) (T : tensor) : res tensor :=
  match planes with
  | [] => Ret T
  | i :: planes =>
      T' ← tensor_set (width b) (height b) i 1
             (plane_index b <$> (if Nat.even i then move_oppo else move_curr)) T;
      fill_planes b move_curr move_oppo planes T'
  end.

(** [range(0, stop, 2)]. *)
Definition even_range (stop : Z) : list Z :=
  (fun k => 2 * k) <$> seqZ 0 ((stop + 1) / 2).

(** [for i in range(0, len(self.states_sequence) - 2, 2)]: the move at
    position [i] of the history is cleared in plane [i].  Both branches of
    the inner [if i % 2 == 0] hold the same assignment. *)
Fixpoint clear_planes (b : Board) (positions : list Z) (T : tensor) : res tensor :=
  match positions with
  | [] => Ret T
  | i :: positions =>
      mp ← list_getitem (states_sequence b) i;
      T' ← (if negb (snd mp =? -1) && (i <? Z.of_nat feature_planes) then
              tensor_set (width b) (height b) (Z.to_nat i) 0
                [plane_index b (fst mp)] T
            else Ret T);
      clear_planes b positions T'
  end.

(** [square_state[self.feature_planes][:, :] = 1.0]. *)
Definition fill_ones (T : tensor) : tensor :=
  alter (fun P => (fun row => (fun _ => 1) <$> row) <$> P) feature_planes T.

(** [square_state[:, ::-1, :]]: the rows of every plane in reverse order. *)
Definition flip_rows (T : tensor) : tensor := (fun P : plane => reverse P) <$> T.

(** The array before the final reversal of the rows. *)
Definition square_state (b : Board) : res tensor :=
  T ← np_zeros (S feature_planes) (width b) (height b);
  T ← (if bool_decide (states b = ∅) then Ret T
       else
         let move_curr := moves_of b (fun p => p =? current_player b) in
         let move_oppo := moves_of b (fun p => negb (p =? current_player b)) in
         T ← fill_planes b move_curr move_oppo (seq 0 feature_planes) T;
         clear_planes b
           (even_range (Z.of_nat (length (states_sequence b)) - 2)) T);
  Ret (if Z.of_nat (size (states b)) mod 2 =? 0 then fill_ones T else T).

(** [Board.current_state()]. *)
Definition current_state (b : Board) : res tensor :=
  T ← square_state b; Ret (flip_rows T).

(** ** The self-play loop of [Game] *)

(** [a[mask] = v] on a one-dimensional array. *)
Definition mask_assign (mask : list bool) (v : Z) (a : list Z) : list Z :=
  zip_with (fun (hit : bool) x => if hit then v else x) mask a.

(** The labels [winners_z] computed when the game is over. *)
Definition winners_z (winner : Z) (current_players : list Z) : list Z :=
  let z := replicate (length current_players) 0 in
  if negb (winner =? -1) then
    let z := mask_assign ((fun p => p =? winner) <$> current_players) 1 z in
    mask_assign ((fun p => negb (p =? winner)) <$> current_players) (-1) z
  else z.

Section Game.

(** The move-selection agent is outside the repository.  [get_action]
    reads the board and answers with a move and its probability vector,
    updating the agent's own search state; [reset_player] drops that
    state.  [set_order] is the order in which a Python set is turned
    into a list. *)
Context {Agent Probs : Type}.
Variable get_action : Agent -> Board -> Z * Probs * Agent.
Variable reset_player : Agent -> Agent.
Variable set_order : gset Z -> list Z.

(** What one run of the loop leaves behind: the three lists filled by
    the loop, the winner, and the board and agent at the end. *)
Record episode : Type := mkEpisode {
  ep_winner : Z;
  ep_states : list tensor;
  ep_mcts_probs : list Probs;
  ep_current_players : list Z;
  ep_board : Board;
  ep_agent : Agent
}.

(** The [while True] loop of [start_self_play].  Every turn takes a move
    out of [availables] or raises, so the loop is cut at [fuel] turns;
    [None] means the fuel ran out. *)
Fixpoint self_play_loop (fuel : nat) (agent : Agent) (b : Board)
    (states_ : list tensor) (mcts_probs : list Probs)
    (current_players : list Z) : option (res episode) :=
  match fuel with
  | O => None
  | S fuel =>
      let '(move, move_probs, agent) := get_action agent b in
      match current_state b with
      | Exc e => Some (Exc e)
      | Ret s =>
          let states_ := states_ ++ [s] in
          let mcts_probs := mcts_probs ++ [move_probs] in
          let current_players := current_players ++ [current_player b] in
          match do_move move b with
          | Raised e _ => Some (Exc e)
          | Done b =>
              match game_end_in (set_order (moved_set b)) b with
              | Exc e => Some (Exc e)
              | Ret (true, winner) =>
                  Some (Ret (mkEpisode winner states_ mcts_probs
                               current_players b (reset_player agent)))
              | Ret (false, _) =>
                  self_play_loop fuel agent b states_ mcts_probs
                    current_players
              end
          end
      end
  end.

(** The run of [start_self_play] up to the end of the game. *)
Definition self_play_episode (agent : Agent) (b : Board)
    : option (res episode) :=
  match init_board 0 b with
  | Raised e _ => Some (Exc e)
  | Done b => self_play_loop (S (length (availables b))) agent b [] [] []
  end.

(** [zip(states, mcts_probs, winners_z)]. *)
Definition zip3 (ss : list tensor) (ps : list Probs) (zs : list Z)
    : list (tensor * Probs * Z) :=
  zip (zip ss ps) zs.

(** [Game.start_self_play(player)]: the winner and the labelled data. *)
Definition start_self_play (agent : Agent) (b : Board)
    : option (res (Z * list (tensor * Probs * Z))) :=
  match self_play_episode agent b with
  | None => None
  | Some (Exc e) => Some (Exc e)
  | Some (Ret ep) =>
      Some (Ret (ep_winner ep,
                 zip3 (ep_states ep) (ep_mcts_probs ep)
                   (winners_z (ep_winner ep) (ep_current_players ep))))
  end.

End Game.

(** ** Boards that play can produce *)

(** A board is reachable when it comes out of [init_board] or out of a
    [do_move] on a reachable board with an available move. *)
Inductive reachable : Board -> Prop :=
| reachable_init (start_player : Z) (b0 b : Board) :
    init_board start_player b0 = Done b -> reachable b
| reachable_move (m : Z) (b b' : Board) :
    reachable b -> m ∈ availables b -> do_move m b = Done b' -> reachable b'.

(** Successive calls of [do_move], up to the first that raises. *)
Fixpoint do_moves (ms : list Z) (b : Board) : outcome :=
  match ms with
  | [] => Done b
  | m :: ms =>
      match do_move m b with
      | Done b' => do_moves ms b'
      | Raised e b' => Raised e b'
      end
  end.

Definition board_of (o : outcome) : Board :=
  match o with
  | Done b => b
  | Raised _ b => b
  end.

(** The board after [Board(width=w, height=h, n_in_row=n)], [init_board()]
    and the moves [ms] played in turn. *)
Definition position (w h n : Z) (ms : list Z) : Board :=
  board_of (do_moves ms (board_of (init_board 0 (new_board w h n)))).

(** What holds of the bookkeeping of every reachable board. *)
Record board_ok (b : Board) : Prop := mkBoardOk {
  ok_nodup : NoDup (availables b);
  ok_player : current_player b ∈ players;
  ok_disjoint : dom (states b) ## list_to_set (availables b);
  ok_cover :
    dom (states b) ∪ list_to_set (availables b)
    = list_to_set (seqZ 0 (width b * height b))
}.

(** ** Runs of stones *)

(** The four line directions as (row step, column step): along a row,
    along a column, and along the two diagonals. *)
Inductive direction : Set := Horizontal | Vertical | Diagonal | AntiDiagonal.

Definition row_step (d : direction) : Z :=
  match d with Horizontal => 0 | _ => 1 end.

Definition col_step (d : direction) : Z :=
  match d with Horizontal => 1 | Vertical => 0 | Diagonal => 1 | AntiDiagonal => -1 end.

(** The [i]-th cell of the line that starts at row [r], column [c] of a
    board [w] cells wide and runs in direction [d]. *)
Definition line_cell (w r c : Z) (d : direction) (i : Z) : Z :=
  (r + i * row_step d) * w + (c + i * col_step d).

(** The step between neighbouring cells of a line, as [has_a_winner]
    adds it to the move number. *)
Definition move_step (w : Z) (d : direction) : Z :=
  match d with
  | Horizontal => 1
  | Vertical => w
  | Diagonal => w + 1
  | AntiDiagonal => w - 1
  end.

(** The first [k] cells of that line lie on a [w] by [h] board. *)
Definition run_on_board (w h r c : Z) (d : direction) (k : Z) : Prop :=
  forall i, 0 <= i < k ->
    0 <= r + i * row_step d < h /\ 0 <= c + i * col_step d < w.

Definition run_cells (w r c : Z) (d : direction) (k : Z) : list Z :=
  line_cell w r c d <$> seqZ 0 k.

(** Some line of [n_in_row] cells on the board is held by one player. *)
Definition has_run (b : Board) : Prop :=
  exists r c d p,
    run_on_board (width b) (height b) r c d (n_in_row b)
    /\ forall i, 0 <= i < n_in_row b ->
         states b !! line_cell (width b) r c d i = Some p.

(** A board that is empty but for the cells [cells], all held by [p]. *)
Definition only_stones (b : Board) (cells : list Z) (p : Z) : Prop :=
  states b = gset_to_gmap p (list_to_set cells)
  /\ list_to_set (availables b)
     = (list_to_set (seqZ 0 (width b * height b)) ∖ list_to_set cells : gset Z).

(** The verdict of one turn of the cell loop, against an expected answer:
    the turn either goes on to the next cell or returns [a]; the turn
    returns [a]. *)
Definition cell_agrees (b : Board) (a : bool * Z) (m : Z) : bool :=
  match check_cell b m with
  | Ret None => true
  | Ret (Some a') => bool_decide (a' = a)
  | Exc _ => false
  end.

Definition cell_hits (b : Board) (a : bool * Z) (m : Z) : bool :=
  match check_cell b m with
  | Ret (Some a') => bool_decide (a' = a)
  | _ => false
  end.

(** The 15 x 15 board with five in a row to win whose only stones are the
    first [k] cells of one line, all held by [p]. *)
Definition lone_run_board (r c : Z) (d : direction) (k p : Z) : Board :=
  {| width := 15; height := 15; n_in_row := 5;
     states := gset_to_gmap p (list_to_set (run_cells 15 r c d k));
     states_sequence := empty_history;
     current_player := player1;
     availables :=
       filter (fun m => m ∉ run_cells 15 r c d k) (seqZ 0 (15 * 15));
     last_move := line_cell 15 r c d 0 |}.

(** An example game in which the first player fills the cells 0 to 5 of
    the top row, closing the gap at cell 2 with the last move. *)
Definition overline_game : list Z := [0; 30; 1; 62; 3; 94; 4; 126; 5; 158; 2].

(** A finished game on the 5 x 5 board that fills every cell. *)
Definition full_game : list Z :=
  [0; 2; 1; 3; 4; 5; 7; 6; 8; 9; 10; 12; 11; 13; 14; 15; 17; 16; 18; 19;
   20; 22; 21; 23; 24].

(** ** Labels of a self-play episode *)

(** The player to move at ply [k] (counted from 0) of a game that
    [init_board()] starts with the first player. *)
Definition mover_at (k : nat) : Z := if Nat.even k then player1 else player2.

(** The label of a triple recorded for [mover] in a game with result
    [winner], where [-1] stands for no winner. *)
Definition outcome_label (winner mover : Z) : Z :=
  if winner =? -1 then 0 else if mover =? winner then 1 else -1.

(** What the self-play loop keeps true of the three lists it fills: they
    have one length, the recorded movers are the players to move at their
    plies, and the board's current player is the next of them. *)
Definition lists_in_step {Probs : Type} (b : Board) (ss : list tensor)
    (ps : list Probs) (cps : list Z) : Prop :=
  length ss = length cps /\ length ps = length cps
  /\ current_player b = mover_at (length cps)
  /\ forall k p, cps !! k = Some p -> p = mover_at k.

(** An agent with no state of its own that plays the first available
    move and reports no probabilities. *)
Definition first_move_agent (a : unit) (b : Board) : Z * unit * unit :=
  (match availables b with m :: _ => m | [] => 0 end, tt, a).

(** The labelled triples of the self-play game of [first_move_agent] on
    the 3 x 3 board with three in a row to win. *)
Definition small_game_data : list (tensor * unit * Z) :=
  match
    start_self_play first_move_agent (fun a => a) elements tt (new_board 3 3 3)
  with
  | Some (Ret (_, data)) => data
  | _ => []
  end.

(** ** Reading feature planes *)

Definition plane_get (P : plane) (r c : nat) : option Z :=
  P !! r ≫= fun row => row !! c.

Definition tensor_get (T : tensor) (i r c : nat) : option Z :=
  T !! i ≫= fun P => plane_get P r c.

(** A plane of [d1] rows of [d2] entries each; an array of [k] such
    planes. *)
Definition plane_shape (d1 d2 : nat) (P : plane) : Prop :=
  length P = d1 /\ Forall (fun row => length row = d2) P.

Definition tensor_shape (k d1 d2 : nat) (T : tensor) : Prop :=
  length T = k /\ Forall (plane_shape d1 d2) T.

(** The plane [P] has the given shape and holds [g r c] at row [r],
    column [c]; the same for an array. *)
Definition plane_view (d1 d2 : nat) (P : plane) (g : nat -> nat -> Z) : Prop :=
  plane_shape d1 d2 P
  /\ forall r c, (r < d1)%nat -> (c < d2)%nat -> plane_get P r c = Some (g r c).

Definition tensor_view (k d1 d2 : nat) (T : tensor)
    (f : nat -> nat -> nat -> Z) : Prop :=
  tensor_shape k d1 d2 T
  /\ forall i r c, (i < k)%nat -> (r < d1)%nat -> (c < d2)%nat ->
       tensor_get T i r c = Some (f i r c).

(** A pair of indices that [plane_set] accepts without wrapping. *)
Definition index_ok (d1 d2 : Z) (rc : Z * Z) : Prop :=
  0 <= fst rc < d1 /\ 0 <= snd rc < d2.

(** The history of a reachable board: [feature_planes] entries, each the
    initial [(-1, -1)] or a move that is on the board. *)
Record history_ok (b : Board) : Prop := mkHistoryOk {
  hist_length : length (states_sequence b) = feature_planes;
  hist_moves :
    forall m p, (m, p) ∈ states_sequence b -> p ≠ -1 -> m ∈ dom (states b)
}.

(** The turn of the history loop for position [i] clears row [r], column
    [c] of plane [j]. *)
Definition clears (b : Board) (j r c : nat) (i : Z) : bool :=
  bool_decide (Z.to_nat i = j) && (i <? Z.of_nat feature_planes)
  && match states_sequence b !! Z.to_nat i with
     | Some (m, p) =>
         negb (p =? -1)
         && bool_decide (plane_index b m = (Z.of_nat r, Z.of_nat c))
     | None => false
     end.

(** Row [r], column [c] of plane [j] of [square_state], read off the
    three steps of [current_state]: the marks of the two players, the
    entries cleared by the history loop, and the colour plane. *)
Definition square_state_entry (b : Board) (j r c : nat) : Z :=
  let move_curr := moves_of b (fun p => p =? current_player b) in
  let move_oppo := moves_of b (fun p => negb (p =? current_player b)) in
  let played :=
    if bool_decide (states b = ∅) then 0
    else if existsb (clears b j r c)
              (even_range (Z.of_nat (length (states_sequence b)) - 2))
    then 0
    else if bool_decide
              (j ∈ seq 0 feature_planes
               /\ (Z.of_nat r, Z.of_nat c)
                    ∈ plane_index b
                        <$> (if Nat.even j then move_oppo else move_curr))
    then 1 else 0 in
  if (Z.of_nat (size (states b)) mod 2 =? 0) && bool_decide (j = feature_planes)
  then 1 else played.

(** The entry that the history loop of [current_state] clears in plane
    [i]: the move at position [i] of the history, for [i] in 0, 2, 4. *)
Definition cleared_at (b : Board) (i : nat) (m : Z) : bool :=
  bool_decide (i ∈ [0; 2; 4]%nat)
  && match states_sequence b !! i with
     | Some (m', p) => negb (p =? -1) && (m' =? m)
     | None => false
     end.

(** The indicator of ownership the specification gives for plane [i]:
    the opponent's cells when [i] is even, the current player's when [i]
    is odd. *)
Definition owner_bit (b : Board) (i : nat) (m : Z) : Z :=
  match states b !! m with
  | Some p =>
      if Nat.even i then (if p =? current_player b then 0 else 1)
      else (if p =? current_player b then 1 else 0)
  | None => 0
  end.

(** The entry of plane [i] for cell [m] as the code computes it. *)
Definition plane_bit (b : Board) (i : nat) (m : Z) : Z :=
  if cleared_at b i m then 0 else owner_bit b i m.

(** ** Sequences of moves *)

(** The player [do_move] hands the turn to. *)
Definition other_player (p : Z) : Z :=
  if p =? player2 then player1 else player2.

(** The movers of [k] successive plies when [p] moves first. *)
Fixpoint turns (p : Z) (k : nat) : list Z :=
  match k with
  | O => []
  | S k => p :: turns (other_player p) k
  end.

(** The player to move after [k] plies when [p] moves first. *)
Definition turn_after (p : Z) (k : nat) : Z :=
  if Nat.even k then p else other_player p.

(** ** Stones of a reachable board *)

(** Every stone belongs to one of the two players; [last_move] is [-1]
    on the empty board and otherwise a cell that holds a stone of the
    player who is not to move. *)
Record stones_ok (b : Board) : Prop := mkStonesOk {
  stones_players : forall m p, states b !! m = Some p -> p ∈ players;
  stones_last :
    (last_move b = -1 /\ states b = ∅)
    \/ (last_move b ≠ -1
        /\ states b !! last_move b = Some (other_player (current_player b)))
}.

(** Some line of [k] cells on the board is held by player [p]. *)
Definition has_line_of (b : Board) (k p : Z) : Prop :=
  exists r c d,
    run_on_board (width b) (height b) r c d k
    /\ forall i, 0 <= i < k ->
         states b !! line_cell (width b) r c d i = Some p.

(** ** The counts of [check_forbidden_move] on one line *)





(** ** A game between two players: [Game.start_play] *)

(** How a call of [start_play] ends: with the winner it returns, or with
    an exception; in both cases [self.board] is left as given. *)
Inductive play_result : Type :=
| Played (winner : Z) (b : Board)
| Failed (e : exn) (b : Board).

Section Play.

(** The two players are outside the repository.  [get_action] reads the
    board and answers with a move (the probabilities it also returns are
    dropped by [start_play]), updating the player's own state;
    [set_player_ind] tells a player which of the two it is.  The
    printing done under [is_shown] has no effect on the board or the
    result, except for the look-up [players[winner]] in the message
    for a game with a winner. *)
Context {Agent1 Agent2 : Type}.
Variable get_action1 : Agent1 -> Board -> Z * Agent1.
Variable get_action2 : Agent2 -> Board -> Z * Agent2.
Variable set_player_ind1 : Z -> Agent1 -> Agent1.
Variable set_player_ind2 : Z -> Agent2 -> Agent2.
Variable set_order : gset Z -> list Z.

(** The [while True] loop of [start_play], cut at [fuel] turns. *)
Fixpoint play_loop (fuel : nat) (is_shown : bool) (a1 : Agent1) (a2 : Agent2)
    (b : Board) : option play_result :=
  match fuel with
  | O => None
  | S fuel =>
      let current_player := get_current_player b in
      if current_player =? player1 then
        let '(move, a1) := get_action1 a1 b in
        match do_move move b with
        | Raised e b => Some (Failed e b)
        | Done b =>
            match game_end_in (set_order (moved_set b)) b with
            | Exc e => Some (Failed e b)
            | Ret (true, winner) =>
                if is_shown && negb (winner =? -1)
                   && negb ((winner =? player1) || (winner =? player2))
                then Some (Failed KeyError b)
                else Some (Played winner b)
            | Ret (false, _) => play_loop fuel is_shown a1 a2 b
            end
        end
      else if current_player =? player2 then
        let '(move, a2) := get_action2 a2 b in
        match do_move move b with
        | Raised e b => Some (Failed e b)
        | Done b =>
            match game_end_in (set_order (moved_set b)) b with
            | Exc e => Some (Failed e b)
            | Ret (true, winner) =>
                if is_shown && negb (winner =? -1)
                   && negb ((winner =? player1) || (winner =? player2))
                then Some (Failed KeyError b)
                else Some (Played winner b)
            | Ret (false, _) => play_loop fuel is_shown a1 a2 b
            end
        end
      else Some (Failed KeyError b)
  end.

(** [Game.start_play(player1, player2, start_player, is_shown)]. *)
Definition start_play (a1 : Agent1) (a2 : Agent2) (start_player : Z)
    (is_shown : bool) (b : Board) : option play_result :=
  if negb ((start_player =? 0) || (start_player =? 1)) then
    Some (Failed PyException b)
  else
    match init_board start_player b with
    | Raised e b => Some (Failed e b)
    | Done b =>
        let a1 := set_player_ind1 player1 a1 in
        let a2 := set_player_ind2 player2 a2 in
        play_loop (S (length (availables b))) is_shown a1 a2 b
    end.

End Play.

(** A player with no state of its own that plays the first available
    move. *)
Definition first_move_player (a : unit) (b : Board) : Z * unit :=
  (match availables b with m :: _ => m | [] => 0 end, a).

(** * Properties *)

(** ** Helper lemmas on lists *)

Lemma list_remove_None (x : Z) (l : list Z) :
  list_remove x l = None <-> x ∉ l.
Proof.
  induction l as [|y l IH]; simpl.
  - split; [intros _; apply not_elem_of_nil | done].
  - destruct (Z.eqb_spec y x) as [->|Hne].
    + split; [done | intros H; exfalso; apply H; left].
    + destruct (list_remove x l) as [r|] eqn:E.
      * split; [done|]. intros H. exfalso.
        assert (x ∉ l) as Hl by (intros Hin; apply H; by right).
        apply IH in Hl. done.
      * split; [|done]. intros _ Hin.
        apply elem_of_cons in Hin as [->|Hin]; [done|].
        by apply (proj1 IH).
Qed.

Lemma list_remove_Some (x : Z) (l : list Z) :
  x ∈ l -> exists r, list_remove x l = Some r.
Proof.
  intros Hin. destruct (list_remove x l) as [r|] eqn:E; [by exists r|].
  apply list_remove_None in E. done.
Qed.

Lemma list_remove_length (x : Z) (l r : list Z) :
  list_remove x l = Some r -> length l = S (length r).
Proof.
  revert r. induction l as [|y l IH]; intros r; simpl; [done|].
  destruct (Z.eqb y x).
  - by intros [= ->].
  - destruct (list_remove x l) as [r'|]; [|done].
    intros [= <-]. simpl. f_equal. by apply IH.
Qed.

Lemma list_remove_elem_of (x y : Z) (l r : list Z) :
  NoDup l -> list_remove x l = Some r ->
  y ∈ r <-> y ∈ l /\ y ≠ x.
Proof.
  revert r. induction l as [|z l IH]; intros r Hnd; simpl; [done|].
  apply NoDup_cons in Hnd as [Hz Hnd].
  destruct (Z.eqb_spec z x) as [->|Hne].
  - intros [= ->]. rewrite elem_of_cons. split.
    + intros Hy. split; [by right|]. intros ->. done.
    + intros [[->|Hy] Hyx]; done.
  - destruct (list_remove x l) as [r'|] eqn:E; [|done].
    intros [= <-]. rewrite !elem_of_cons, (IH r' Hnd eq_refl).
    split.
    + intros [->|[Hy Hyx]]; [by split; [left|] | by split; [right|]].
    + intros [[->|Hy] Hyx]; [by left | by right].
Qed.

Lemma list_remove_NoDup (x : Z) (l r : list Z) :
  NoDup l -> list_remove x l = Some r -> NoDup r.
Proof.
  revert r. induction l as [|z l IH]; intros r Hnd; simpl; [done|].
  pose proof Hnd as Hnd0.
  apply NoDup_cons in Hnd as [Hz Hnd].
  destruct (Z.eqb_spec z x) as [->|Hne].
  - by intros [= ->].
  - destruct (list_remove x l) as [r'|] eqn:E; [|done].
    intros [= <-]. apply NoDup_cons. split; [|by apply IH].
    intros Hin. apply (list_remove_elem_of x z l r' Hnd E) in Hin as [Hin _].
    done.
Qed.

(** ** [do_move] *)

Lemma do_move_Done_iff (m : Z) (b : Board) :
  m ∈ availables b <-> exists b', do_move m b = Done b'.
Proof.
  unfold do_move; simpl. split.
  - intros Hin. destruct (list_remove_Some m _ Hin) as [r ->]. eauto.
  - intros [b' H]. destruct (list_remove m (availables b)) eqn:E; [|done].
    destruct (decide (m ∈ availables b)) as [|Hn]; [done|].
    apply list_remove_None in Hn. congruence.
Qed.

Lemma other_player_in (p : Z) :
  (if p =? player2 then player1 else player2) ∈ players.
Proof.
  unfold players. destruct (p =? player2).
  - apply elem_of_cons. by left.
  - apply elem_of_cons. right. apply elem_of_cons. by left.
Qed.

(** C6. On a board whose list of available moves has no duplicates and
    whose current player is one of the two players (both hold of every
    reachable board), [do_move m] with [m] available returns normally;
    afterwards [m] is no longer available, the dictionary maps [m] to the
    player who moved, the current player is the other player, and
    [last_move] is [m]. *)
Theorem do_move_available (m : Z) (b : Board) :
  NoDup (availables b) ->
  current_player b ∈ players ->
  m ∈ availables b ->
  exists b',
    do_move m b = Done b'
    /\ (m ∉ availables b')
    /\ states b' !! m = Some (current_player b)
    /\ current_player b' ∈ players
    /\ current_player b' ≠ current_player b
    /\ last_move b' = m.
Proof.
  intros Hnd Hp Hin.
  destruct (list_remove_Some m _ Hin) as [r Hr].
  unfold do_move; simpl. rewrite Hr. eexists; split; [reflexivity|]. simpl.
  split; [|split; [|split; [|split]]].
  - intros Hm. apply (list_remove_elem_of m m _ r Hnd Hr) in Hm as [_ Hm]. done.
  - apply lookup_insert_eq.
  - apply other_player_in.
  - unfold players, player1, player2 in *.
    destruct (Z.eqb_spec (current_player b) 2) as [->|Hne]; [done|].
    intros Heq. rewrite <- Heq in Hp. set_solver.
  - reflexivity.
Qed.

Lemma do_move_available_witness :
  exists b',
    do_move 112 (position 15 15 5 [113]) = Done b'
    /\ (112 ∉ availables b')
    /\ states b' !! 112 = Some (current_player (position 15 15 5 [113]))
    /\ current_player b' ∈ players
    /\ current_player b' ≠ current_player (position 15 15 5 [113])
    /\ last_move b' = 112.
Proof.
  apply (do_move_available 112 (position 15 15 5 [113])).
  - apply (bool_decide_unpack _). vm_compute. reflexivity.
  - apply (bool_decide_unpack _). vm_compute. reflexivity.
  - apply (bool_decide_unpack _). vm_compute. reflexivity.
Defined.

(** C10. [do_move m] with [m] not among the available moves raises
    [ValueError], and the board it leaves behind already maps [m] to the
    current player and has [(m, current_player)] in front of the history,
    while [current_player], [last_move] and [availables] are as before
    the call. *)
Theorem do_move_unavailable (m : Z) (b : Board) :
  m ∉ availables b ->
  exists b',
    do_move m b = Raised ValueError b'
    /\ states b' = <[m := current_player b]> (states b)
    /\ states_sequence b'
       = take feature_planes ((m, current_player b) :: states_sequence b)
    /\ current_player b' = current_player b
    /\ last_move b' = last_move b
    /\ availables b' = availables b.
Proof.
  intros Hin. apply list_remove_None in Hin.
  unfold do_move; simpl. rewrite Hin. eexists; split; [reflexivity|].
  simpl. unfold deque_appendleft. repeat split; reflexivity.
Qed.

Lemma do_move_unavailable_witness :
  exists b',
    do_move 112 (position 15 15 5 [112]) = Raised ValueError b'
    /\ states b' = <[112 := 2]> (states (position 15 15 5 [112]))
    /\ states_sequence b'
       = take feature_planes ((112, 2) :: states_sequence (position 15 15 5 [112]))
    /\ current_player b' = 2
    /\ last_move b' = 112
    /\ availables b' = availables (position 15 15 5 [112]).
Proof.
  apply (do_move_unavailable 112 (position 15 15 5 [112])).
  apply (bool_decide_unpack _). vm_compute. reflexivity.
Defined.

(** ** The occupancy invariant *)

Lemma init_board_ok (sp : Z) (b0 b : Board) :
  init_board sp b0 = Done b -> board_ok b.
Proof.
  unfold init_board.
  destruct ((width b0 <? n_in_row b0) || (height b0 <? n_in_row b0)); [done|].
  destruct (list_getitem players sp) as [p|e] eqn:Hp; [|done].
  intros [= <-]. split; simpl.
  - apply NoDup_seqZ.
  - unfold list_getitem in Hp. simpl in Hp.
    destruct ((0 <=? _) && _); [|done].
    destruct (players !! _) as [q|] eqn:Hq; [|done].
    injection Hp as ->. by apply list_elem_of_lookup_2 in Hq.
  - rewrite dom_empty_L. set_solver.
  - rewrite dom_empty_L. set_solver.
Qed.

Lemma do_move_ok (m : Z) (b b' : Board) :
  board_ok b -> m ∈ availables b -> do_move m b = Done b' -> board_ok b'.
Proof.
  intros [Hnd Hp Hdis Hcov] Hin Hdo.
  unfold do_move in Hdo; simpl in Hdo.
  destruct (list_remove m (availables b)) as [r|] eqn:Hr; [|done].
  injection Hdo as <-. simpl in *.
  assert (Hr' : forall y, y ∈ r <-> y ∈ availables b /\ y ≠ m)
    by (intros y; by apply list_remove_elem_of).
  split; simpl.
  - by eapply list_remove_NoDup.
  - apply other_player_in.
  - rewrite dom_insert_L. intros y Hy1 Hy2.
    apply elem_of_list_to_set, Hr' in Hy2 as [Hy2 Hne].
    apply elem_of_union in Hy1 as [Hy1|Hy1]; [set_solver|].
    apply (Hdis y Hy1). by apply elem_of_list_to_set.
  - rewrite dom_insert_L, <- Hcov. apply set_eq. intros y.
    rewrite !elem_of_union, !elem_of_list_to_set, Hr', elem_of_singleton.
    destruct (decide (y = m)) as [->|Hne]; naive_solver.
Qed.

Lemma reachable_ok (b : Board) : reachable b -> board_ok b.
Proof.
  induction 1 as [sp b0 b Hinit | m b b' _ IH Hin Hdo].
  - by eapply init_board_ok.
  - by eapply do_move_ok.
Qed.

(** C7. On every reachable board (the result of [init_board], then of
    any number of [do_move] calls each with an available move) the keys
    of [states] and the available moves are disjoint and together are
    exactly the cells [0 .. width * height - 1]. *)
Theorem occupancy_partition (b : Board) :
  reachable b ->
  dom (states b) ## list_to_set (availables b)
  /\ dom (states b) ∪ list_to_set (availables b)
     = list_to_set (seqZ 0 (width b * height b)).
Proof.
  intros Hr. destruct (reachable_ok b Hr) as [_ _ Hdis Hcov]. by split.
Qed.

Lemma position_reachable_one (w h n m : Z) :
  init_board 0 (new_board w h n) = Done (position w h n []) ->
  m ∈ availables (position w h n []) ->
  reachable (position w h n [m]).
Proof.
  intros Hinit Hin.
  apply (reachable_move m (position w h n [])).
  - by apply (reachable_init 0 (new_board w h n)).
  - exact Hin.
  - apply do_move_Done_iff in Hin as [b' Hb'].
    unfold position in *. simpl. rewrite Hinit in *. simpl in *.
    by rewrite Hb'.
Qed.

Lemma occupancy_partition_witness :
  dom (states (position 15 15 5 [112]))
    ## list_to_set (availables (position 15 15 5 [112]))
  /\ dom (states (position 15 15 5 [112]))
       ∪ list_to_set (availables (position 15 15 5 [112]))
     = list_to_set (seqZ 0 (width (position 15 15 5 [112])
                            * height (position 15 15 5 [112]))).
Proof.
  apply (occupancy_partition (position 15 15 5 [112])).
  apply position_reachable_one.
  - vm_compute. reflexivity.
  - apply (bool_decide_unpack _). vm_compute. reflexivity.
Defined.

(** ** Coordinates *)

Lemma location_to_move_spec (b : Board) (h w : Z) :
  location_to_move b [h; w]
  = if bool_decide (0 <= h * width b + w < width b * height b)
    then h * width b + w else -1.
Proof.
  unfold location_to_move.
  case_bool_decide as H.
  - destruct H as [H1 H2].
    apply Z.leb_le in H1. apply Z.ltb_lt in H2. by rewrite H1, H2.
  - destruct (Z.leb_spec 0 (h * width b + w)); simpl; [|done].
    destruct (Z.ltb_spec (h * width b + w) (width b * height b)); [|done].
    exfalso. apply H. lia.
Qed.

Lemma row_out_of_range (b : Board) (h w : Z) :
  0 <= w < width b -> ~ (0 <= h < height b) ->
  ~ (0 <= h * width b + w < width b * height b).
Proof. intros Hw Hh. nia. Qed.

(** C3, as the code has it.  [location_to_move] answers [-1] for every
    pair whose linear index [h * width + w] lies outside
    [0, width * height), and that is the case for every pair whose row is
    out of range while its column is in range.  The function is a plain
    function of the board: it reads [width] and [height], has no
    exceptional result and leaves no new board behind. *)
Theorem location_to_move_invalid (b : Board) (h w : Z) :
  ~ (0 <= h * width b + w < width b * height b)
  \/ (0 <= w < width b /\ ~ (0 <= h < height b)) ->
  location_to_move b [h; w] = -1.
Proof.
  intros H. rewrite location_to_move_spec.
  case_bool_decide as Hin; [|done].
  destruct H as [H|[Hw Hh]]; [done|].
  by apply (row_out_of_range b h w Hw) in Hh.
Qed.

Lemma location_to_move_invalid_witness :
  location_to_move (position 15 15 5 []) [15; 3] = -1.
Proof.
  apply (location_to_move_invalid (position 15 15 5 []) 15 3).
  right. change (width (position 15 15 5 [])) with 15.
  change (height (position 15 15 5 [])) with 15. lia.
Defined.

(** C3, as stated, fails: on the 15 x 15 board the pair (0, 15) has its
    column out of range, and [location_to_move] answers the cell 15,
    the first cell of the next row, instead of [-1]. *)
Lemma location_to_move_column_overflow :
  ~ (0 <= 15 < width (position 15 15 5 []))
  /\ location_to_move (position 15 15 5 []) [0; 15] = 15
  /\ location_to_move (position 15 15 5 []) [0; 15] ≠ -1.
Proof.
  change (width (position 15 15 5 [])) with 15.
  split; [lia|]. split; [reflexivity | discriminate].
Qed.

(** ** Win detection: the cell loop *)

Lemma forallb_Permutation {A} (f : A -> bool) (l l' : list A) :
  l ≡ₚ l' -> forallb f l = forallb f l'.
Proof.
  induction 1 as [|x l l' _ IH|x y l|l l' l'' _ IH1 _ IH2]; simpl.
  - reflexivity.
  - by rewrite IH.
  - destruct (f x), (f y); reflexivity.
  - by rewrite IH1.
Qed.

Lemma existsb_Permutation {A} (f : A -> bool) (l l' : list A) :
  l ≡ₚ l' -> existsb f l = existsb f l'.
Proof.
  induction 1 as [|x l l' _ IH|x y l|l l' l'' _ IH1 _ IH2]; simpl.
  - reflexivity.
  - by rewrite IH.
  - destruct (f x), (f y); reflexivity.
  - by rewrite IH1.
Qed.

(** When every turn of the loop either passes or returns [a], and some
    turn returns [a], the loop returns [a] whatever the order. *)
Lemma scan_cells_agree (b : Board) (a : bool * Z) (moved : list Z) :
  forallb (cell_agrees b a) moved = true ->
  existsb (cell_hits b a) moved = true ->
  scan_cells b moved = Ret (Some a).
Proof.
  induction moved as [|m moved IH]; simpl; [done|].
  unfold cell_agrees at 1, cell_hits at 1.
  destruct (check_cell b m) as [[a'|]|e]; simpl.
  - case_bool_decide as Ha; [|done]. by subst.
  - intros H1 H2. by apply IH.
  - done.
Qed.

Lemma scan_cells_pass (b : Board) (moved : list Z) :
  (forall m, m ∈ moved -> check_cell b m = Ret None) ->
  scan_cells b moved = Ret None.
Proof.
  induction moved as [|m moved IH]; simpl; [done|].
  intros H. rewrite (H m) by left. simpl. apply IH.
  intros m' Hm'. apply H. by right.
Qed.

Lemma has_a_winner_in_found (b : Board) (a : bool * Z) (moved : list Z) :
  n_in_row b <= Z.of_nat (length moved) ->
  scan_cells b moved = Ret (Some a) ->
  has_a_winner_in moved b = Ret a.
Proof.
  intros Hlen Hscan. unfold has_a_winner_in.
  destruct (Z.ltb_spec (Z.of_nat (length moved)) (n_in_row b)); [lia|].
  by rewrite Hscan.
Qed.

Lemma game_end_in_won (b : Board) (p : Z) (moved : list Z) :
  has_a_winner_in moved b = Ret (true, p) ->
  game_end_in moved b = Ret (true, p).
Proof. intros H. unfold game_end_in. by rewrite H. Qed.

(** C1, what the code does.  In [overline_game] the first player ends up
    with the six cells 0 to 5 of the top row, an overline, and no other
    line of five is on the board.  Whatever the order in which the played
    cells are visited, [game_end] reports the game as won by the FIRST
    player: the loop over the cells finds five of the six stones and
    returns before the forbidden-move check is reached. *)
Theorem overline_game_end (moved : list Z) :
  moved ≡ₚ elements (moved_set (position 15 15 5 overline_game)) ->
  game_end_in moved (position 15 15 5 overline_game) = Ret (true, player1).
Proof.
  intros Hperm. apply game_end_in_won, has_a_winner_in_found.
  - rewrite Hperm. vm_compute. discriminate.
  - apply scan_cells_agree.
    + rewrite (forallb_Permutation _ _ _ Hperm). vm_compute. reflexivity.
    + rewrite (existsb_Permutation _ _ _ Hperm). vm_compute. reflexivity.
Qed.

Lemma overline_game_end_witness :
  game_end (position 15 15 5 overline_game) = Ret (true, player1).
Proof.
  apply (overline_game_end
           (elements (moved_set (position 15 15 5 overline_game)))).
  reflexivity.
Defined.

(** The position of [overline_game] is an overline for the first player,
    and the forbidden-move check, had it been reached, would have said
    so. *)
Example overline_game_position :
  Forall (fun m => states (position 15 15 5 overline_game) !! m = Some player1)
    [0; 1; 2; 3; 4; 5]
  /\ last_move (position 15 15 5 overline_game) = 2
  /\ get_line (position 15 15 5 overline_game) 2 1 0 = Ret "XXXXXX........."%string
  /\ last_move_forbidden (position 15 15 5 overline_game) = Ret true.
Proof.
  split; [|split; [|split]]; [|vm_compute; reflexivity..].
  repeat constructor.
Qed.

(** ** Win detection: one cell *)

Lemma cell_decompose (w r c : Z) :
  0 <= c < w -> (r * w + c) / w = r /\ (r * w + c) mod w = c.
Proof.
  intros Hc. split.
  - rewrite Z.add_comm, Z.div_add by lia. rewrite Z.div_small by lia. lia.
  - rewrite Z.add_comm, Z.mod_add by lia. apply Z.mod_small. lia.
Qed.

(** The result of a turn on a cell held by [p]: pass, or a win for [p]. *)
Lemma check_cell_owner (b : Board) (m p : Z) :
  states b !! m = Some p ->
  check_cell b m = Ret None \/ check_cell b m = Ret (Some (true, p)).
Proof.
  intros Hp. unfold check_cell, dict_getitem. rewrite Hp. simpl.
  repeat match goal with
         | |- context [if ?c then _ else _] => destruct c
         end; auto.
Qed.

Lemma run_from_true (b : Board) (m step p : Z) :
  (forall i, 0 <= i < n_in_row b -> states b !! (m + i * step) = Some p) ->
  run_from b m step p = true.
Proof.
  intros H. unfold run_from. apply forallb_forall. intros i Hi.
  apply list_elem_of_In, elem_of_seqZ in Hi.
  unfold dict_get. rewrite H by lia. apply Z.eqb_refl.
Qed.

Lemma line_cell_step (w r c : Z) (d : direction) (i : Z) :
  line_cell w r c d i = (r * w + c) + i * move_step w d.
Proof. unfold line_cell; destruct d; simpl; lia. Qed.

(** A line of [n_in_row] cells of one player is found by the turn on its
    first cell. *)
Lemma check_cell_run (b : Board) (r c : Z) (d : direction) (p : Z) :
  0 < n_in_row b ->
  run_on_board (width b) (height b) r c d (n_in_row b) ->
  (forall i, 0 <= i < n_in_row b ->
     states b !! line_cell (width b) r c d i = Some p) ->
  check_cell b (r * width b + c) = Ret (Some (true, p)).
Proof.
  intros Hn Hon Hrun.
  pose proof (Hon 0 ltac:(lia)) as [Hr0 Hc0].
  pose proof (Hon (n_in_row b - 1) ltac:(lia)) as [Hr1 Hc1].
  rewrite Z.mul_0_l, Z.add_0_r in Hr0, Hc0.
  destruct (cell_decompose (width b) r c Hc0) as [Hdiv Hmod].
  assert (Hm : states b !! (r * width b + c) = Some p).
  { rewrite <- (Hrun 0) by lia. f_equal. rewrite line_cell_step. lia. }
  assert (Hstep : run_from b (r * width b + c) (move_step (width b) d) p = true).
  { apply run_from_true. intros i Hi. rewrite <- line_cell_step. by apply Hrun. }
  unfold check_cell, dict_getitem. rewrite Hm, Hdiv, Hmod. simpl.
  destruct d; simpl in *.
  - assert ((c <=? width b - n_in_row b) = true) as -> by (apply Z.leb_le; lia).
    by rewrite Hstep.
  - assert ((r <=? height b - n_in_row b) = true) as -> by (apply Z.leb_le; lia).
    rewrite Hstep. by destruct (_ && _).
  - assert ((r <=? height b - n_in_row b) = true) as -> by (apply Z.leb_le; lia).
    assert ((c <=? width b - n_in_row b) = true) as -> by (apply Z.leb_le; lia).
    rewrite Hstep. simpl. by repeat destruct (run_from _ _ _ _).
  - assert ((r <=? height b - n_in_row b) = true) as -> by (apply Z.leb_le; lia).
    assert ((n_in_row b - 1 <=? c) = true) as -> by (apply Z.leb_le; lia).
    rewrite Hstep. simpl.
    repeat match goal with
           | |- context [if ?c then _ else _] => destruct c
           end; reflexivity.
Qed.

(** ** Win detection: a board with a single run *)

Lemma line_cell_coords (w r c : Z) (d : direction) (i : Z) :
  line_cell w r c d i = (r + i * row_step d) * w + (c + i * col_step d).
Proof. reflexivity. Qed.

Lemma same_cell (w r1 c1 r2 c2 : Z) :
  0 <= c1 < w -> 0 <= c2 < w -> r1 * w + c1 = r2 * w + c2 ->
  r1 = r2 /\ c1 = c2.
Proof.
  intros H1 H2 Heq.
  destruct (cell_decompose w r1 c1 H1) as [Hd1 Hm1].
  destruct (cell_decompose w r2 c2 H2) as [Hd2 Hm2].
  rewrite Heq in Hd1, Hm1. split; congruence.
Qed.

Lemma line_cell_in_range (w h r c : Z) (d : direction) (k i : Z) :
  run_on_board w h r c d k -> 0 <= i < k ->
  0 <= line_cell w r c d i < w * h.
Proof.
  intros Hon Hi. destruct (Hon i Hi) as [Hr Hc].
  rewrite line_cell_coords. nia.
Qed.

Lemma line_cell_inj (w h r c : Z) (d : direction) (k i j : Z) :
  run_on_board w h r c d k -> 0 <= i < k -> 0 <= j < k ->
  line_cell w r c d i = line_cell w r c d j -> i = j.
Proof.
  intros Hon Hi Hj Heq.
  destruct (Hon i Hi) as [_ Hci]. destruct (Hon j Hj) as [_ Hcj].
  rewrite !line_cell_coords in Heq.
  destruct (same_cell _ _ _ _ _ Hci Hcj Heq) as [Hr Hc].
  destruct d; simpl in *; lia.
Qed.

Lemma elem_of_run_cells (w r c : Z) (d : direction) (k m : Z) :
  m ∈ run_cells w r c d k <-> exists i, 0 <= i < k /\ m = line_cell w r c d i.
Proof.
  unfold run_cells. rewrite list_elem_of_fmap. split.
  - intros (i & -> & Hi). apply elem_of_seqZ in Hi. exists i. split; [lia|done].
  - intros (i & Hi & ->). exists i. split; [done|]. apply elem_of_seqZ. lia.
Qed.

Lemma run_cells_NoDup (w h r c : Z) (d : direction) (k : Z) :
  run_on_board w h r c d k -> NoDup (run_cells w r c d k).
Proof.
  intros Hon. unfold run_cells. apply NoDup_fmap_2_strong; [|apply NoDup_seqZ].
  intros i j Hi Hj. apply elem_of_seqZ in Hi, Hj.
  apply (line_cell_inj w h r c d k); [done|lia|lia].
Qed.

Lemma run_cells_length (w r c : Z) (d : direction) (k : Z) :
  length (run_cells w r c d k) = Z.to_nat k.
Proof. unfold run_cells. by rewrite length_fmap, length_seqZ. Qed.

(** On a board that holds only the stones [cells], the played cells are
    [cells]. *)
Lemma only_stones_moved (b : Board) (cells : list Z) (p : Z) :
  only_stones b cells p ->
  (forall m, m ∈ cells -> 0 <= m < width b * height b) ->
  moved_set b = list_to_set cells.
Proof.
  intros [_ Hav] Hin. unfold moved_set. rewrite Hav. apply set_eq. intros m.
  rewrite !elem_of_difference, !elem_of_list_to_set, elem_of_seqZ.
  split.
  - intros [Hm Hn]. destruct (decide (m ∈ cells)); [done|].
    exfalso. apply Hn. split; [lia | done].
  - intros Hm. specialize (Hin m Hm). split; [lia|]. intros [_ Hn]. done.
Qed.

Lemma only_stones_lookup (b : Board) (cells : list Z) (p m : Z) :
  only_stones b cells p -> m ∈ cells -> states b !! m = Some p.
Proof.
  intros [Hst _] Hm. rewrite Hst. apply lookup_gset_to_gmap_Some.
  split; [by apply elem_of_list_to_set | done].
Qed.

Lemma lone_run_moved (b : Board) (r c : Z) (d : direction) (k p : Z)
    (moved : list Z) :
  run_on_board (width b) (height b) r c d k ->
  only_stones b (run_cells (width b) r c d k) p ->
  moved ≡ₚ elements (moved_set b) ->
  length moved = Z.to_nat k
  /\ forall m, m ∈ moved <-> m ∈ run_cells (width b) r c d k.
Proof.
  intros Hon Hst Hperm.
  assert (Hset : moved_set b = list_to_set (run_cells (width b) r c d k)).
  { apply (only_stones_moved b _ p Hst). intros m Hm.
    apply elem_of_run_cells in Hm as (i & Hi & ->).
    by apply (line_cell_in_range _ _ _ _ _ k). }
  split.
  - rewrite Hperm, Hset.
    change (length (elements ?X)) with (size X).
    rewrite size_list_to_set by (by eapply run_cells_NoDup).
    apply run_cells_length.
  - intros m. rewrite Hperm, Hset, elem_of_elements, elem_of_list_to_set. done.
Qed.

(** A full line of one player on a board with no other stones is a win
    for that player, in whatever order the cells are visited. *)
Lemma lone_run_wins (b : Board) (r c : Z) (d : direction) (p : Z)
    (moved : list Z) :
  0 < n_in_row b ->
  run_on_board (width b) (height b) r c d (n_in_row b) ->
  only_stones b (run_cells (width b) r c d (n_in_row b)) p ->
  moved ≡ₚ elements (moved_set b) ->
  has_a_winner_in moved b = Ret (true, p).
Proof.
  intros Hn Hon Hst Hperm.
  destruct (lone_run_moved b r c d _ p moved Hon Hst Hperm) as [Hlen Hmem].
  apply has_a_winner_in_found; [lia|].
  apply scan_cells_agree.
  - apply forallb_forall. intros m Hm. apply list_elem_of_In, Hmem in Hm.
    unfold cell_agrees.
    destruct (check_cell_owner b m p (only_stones_lookup b _ p m Hst Hm))
      as [-> | ->]; [done|]. by apply bool_decide_eq_true.
  - apply existsb_exists. exists (r * width b + c). split.
    + apply list_elem_of_In, Hmem, elem_of_run_cells. exists 0.
      split; [lia|]. rewrite line_cell_step. lia.
    + unfold cell_hits. rewrite (check_cell_run b r c d p Hn Hon).
      * by apply bool_decide_eq_true.
      * intros i Hi. apply (only_stones_lookup b _ p _ Hst).
        apply elem_of_run_cells. by exists i.
Qed.

(** A cell of the board off a given line of [k] cells. *)
Lemma off_the_line (w h r c : Z) (d : direction) (k : Z) :
  2 <= w -> 2 <= h -> run_on_board w h r c d k -> 0 < k ->
  exists m, 0 <= m < w * h /\ m ∉ run_cells w r c d k.
Proof.
  intros Hw Hh Hon Hk.
  pose proof (Hon 0 ltac:(lia)) as [Hr0 Hc0].
  rewrite Z.mul_0_l, Z.add_0_r in Hr0, Hc0.
  set (r' := match d with
             | Horizontal => if decide (r = 0) then 1 else 0
             | _ => r
             end).
  set (c' := match d with
             | Horizontal => c
             | _ => if decide (c = 0) then 1 else 0
             end).
  assert (Hr' : 0 <= r' < h) by (subst r'; destruct d; repeat case_decide; lia).
  assert (Hc' : 0 <= c' < w) by (subst c'; destruct d; repeat case_decide; lia).
  exists (r' * w + c'). split; [nia|].
  intros Hin. apply elem_of_run_cells in Hin as (i & Hi & Heq).
  destruct (Hon i Hi) as [_ Hci]. rewrite line_cell_coords in Heq.
  destruct (same_cell _ _ _ _ _ Hc' Hci Heq) as [Hr Hc].
  subst r' c'. destruct d; simpl in *; repeat case_decide; try done; lia.
Qed.

(** C8. On a 15 x 15 board with five in a row to win whose only stones
    are [k] cells in a line (along a row, a column or a diagonal), all of
    player [p]: with [k = 5], [has_a_winner] and [game_end] report
    (true, p); with [k = 4] both report (false, -1).  This holds for
    every order in which the played cells are visited. *)
Theorem lone_run_verdict (b : Board) (r c : Z) (d : direction) (p k : Z)
    (moved : list Z) :
  width b = 15 -> height b = 15 -> n_in_row b = 5 ->
  k = 4 \/ k = 5 ->
  run_on_board 15 15 r c d k ->
  only_stones b (run_cells 15 r c d k) p ->
  moved ≡ₚ elements (moved_set b) ->
  has_a_winner_in moved b = Ret (if k =? 5 then (true, p) else (false, -1))
  /\ game_end_in moved b = Ret (if k =? 5 then (true, p) else (false, -1)).
Proof.
  intros Hw Hh Hn Hk Hon Hst Hperm.
  rewrite <- Hw in Hon at 1. rewrite <- Hh in Hon. rewrite <- Hw in Hst.
  destruct Hk as [-> | ->]; simpl.
  - destruct (lone_run_moved b r c d 4 p moved Hon Hst Hperm) as [Hlen _].
    assert (Hwin : has_a_winner_in moved b = Ret (false, -1)).
    { unfold has_a_winner_in. rewrite Hlen, Hn. reflexivity. }
    split; [done|]. unfold game_end_in. rewrite Hwin. simpl.
    destruct (off_the_line (width b) (height b) r c d 4) as (m & Hm & Hoff);
      [lia | lia | done | lia |].
    destruct Hst as [_ Hav].
    assert (Hin : m ∈ availables b).
    { apply (elem_of_list_to_set (C := gset Z)). rewrite Hav.
      apply elem_of_difference. split; [|by rewrite elem_of_list_to_set].
      apply elem_of_list_to_set, elem_of_seqZ. lia. }
    destruct (availables b); [by apply elem_of_nil in Hin | reflexivity].
  - rewrite <- Hn in Hon, Hst.
    assert (Hwin : has_a_winner_in moved b = Ret (true, p))
      by (apply (lone_run_wins b r c d); [lia | done..]).
    split; [done|]. by apply game_end_in_won.
Qed.

Lemma lone_run_verdict_witness :
  has_a_winner (lone_run_board 7 5 Diagonal 5 player1) = Ret (true, player1)
  /\ game_end (lone_run_board 7 5 Diagonal 5 player1) = Ret (true, player1).
Proof.
  apply (lone_run_verdict (lone_run_board 7 5 Diagonal 5 player1)
           7 5 Diagonal player1 5
           (elements (moved_set (lone_run_board 7 5 Diagonal 5 player1)))).
  - reflexivity.
  - reflexivity.
  - reflexivity.
  - right. reflexivity.
  - intros i Hi. simpl. lia.
  - split; [reflexivity | vm_compute; reflexivity].
  - reflexivity.
Defined.

(** The same board with four stones only: no win is reported. *)
Example lone_run_of_four :
  has_a_winner (lone_run_board 7 5 Diagonal 4 player1) = Ret (false, -1)
  /\ game_end (lone_run_board 7 5 Diagonal 4 player1) = Ret (false, -1).
Proof. split; vm_compute; reflexivity. Qed.

(** ** The full board *)

Lemma run_from_lookup (b : Board) (m step p i : Z) :
  run_from b m step p = true -> 0 <= i < n_in_row b ->
  is_Some (states b !! (m + i * step)) ->
  states b !! (m + i * step) = Some p.
Proof.
  unfold run_from. intros Hrun Hi [q Hq].
  rewrite forallb_forall in Hrun.
  specialize (Hrun i). unfold dict_get in Hrun. rewrite Hq in Hrun |- *.
  f_equal. apply Z.eqb_eq, Hrun, list_elem_of_In, elem_of_seqZ. lia.
Qed.

(** When every cell of the board is occupied, a turn of the cell loop
    that returns has found a line of [n_in_row] stones of one player. *)
Lemma check_cell_found_run (b : Board) (m : Z) (a : bool * Z) :
  0 < width b -> 0 <= m < width b * height b ->
  (forall m', 0 <= m' < width b * height b -> is_Some (states b !! m')) ->
  check_cell b m = Ret (Some a) -> has_run b.
Proof.
  intros Hw Hm Hfull.
  pose proof (Z.div_mod m (width b) ltac:(lia)) as Hdm.
  pose proof (Z.mod_pos_bound m (width b) Hw) as Hc.
  set (r := m / width b) in *. set (c := m mod width b) in *.
  assert (Hr : 0 <= r < height b) by nia.
  assert (Hmrc : m = r * width b + c) by lia.
  unfold check_cell, dict_getitem. fold r c.
  destruct (states b !! m) as [p|] eqn:Hp; [simpl|done].
  assert (Hfound : forall d,
    run_on_board (width b) (height b) r c d (n_in_row b) ->
    run_from b m (move_step (width b) d) p = true -> has_run b).
  { intros d Hon Hrun. exists r, c, d, p. split; [done|].
    intros i Hi. rewrite line_cell_step, <- Hmrc.
    apply run_from_lookup; [done..|].
    apply Hfull. rewrite Hmrc, <- line_cell_step.
    by apply (line_cell_in_range _ _ _ _ _ (n_in_row b)). }
  destruct (Z.leb_spec c (width b - n_in_row b)) as [Hcw|Hcw];
    destruct (Z.leb_spec r (height b - n_in_row b)) as [Hrh|Hrh];
    destruct (Z.leb_spec (n_in_row b - 1) c) as [Hnc|Hnc]; simpl;
    repeat match goal with
      | |- context [run_from b m ?s p] =>
          let E := fresh "E" in destruct (run_from b m s p) eqn:E; simpl
      end; try done; intros _.
  all: first
    [ apply (Hfound Horizontal); [intros i Hi; simpl; lia | assumption]
    | apply (Hfound Vertical); [intros i Hi; simpl; lia | assumption]
    | apply (Hfound Diagonal); [intros i Hi; simpl; lia | assumption]
    | apply (Hfound AntiDiagonal); [intros i Hi; simpl; lia | assumption] ].
Qed.

(** C9. On a well-kept board with no available move left, on which no
    line of [n_in_row] cells is held by one player and the forbidden-move
    test on the last move answers no, [game_end] reports the game over
    with the no-winner value [-1], in whatever order the played cells are
    visited. *)
Theorem full_board_draw (b : Board) (moved : list Z) :
  board_ok b -> 0 < width b ->
  availables b = [] ->
  ~ has_run b ->
  last_move_forbidden b = Ret false ->
  moved ≡ₚ elements (moved_set b) ->
  game_end_in moved b = Ret (true, -1).
Proof.
  intros [_ _ _ Hcov] Hw Hav Hno Hforb Hperm.
  rewrite Hav in Hcov. rewrite list_to_set_nil, (right_id_L ∅ (∪)) in Hcov.
  assert (Hfull : forall m, 0 <= m < width b * height b -> is_Some (states b !! m)).
  { intros m Hm. apply elem_of_dom. rewrite Hcov.
    apply elem_of_list_to_set, elem_of_seqZ. lia. }
  assert (Hmoved : forall m, m ∈ moved -> 0 <= m < width b * height b).
  { intros m. rewrite Hperm, elem_of_elements. unfold moved_set.
    rewrite elem_of_difference, elem_of_list_to_set, elem_of_seqZ. lia. }
  assert (Hscan : scan_cells b moved = Ret None).
  { apply scan_cells_pass. intros m Hm. specialize (Hmoved m Hm).
    destruct (Hfull m Hmoved) as [p Hp].
    destruct (check_cell_owner b m p Hp) as [H|H]; [done|].
    exfalso. apply Hno. by apply (check_cell_found_run b m (true, p)). }
  assert (Hwin : has_a_winner_in moved b = Ret (false, -1)).
  { unfold has_a_winner_in. destruct (_ <? _); [done|].
    rewrite Hscan. simpl. by rewrite Hforb. }
  unfold game_end_in. rewrite Hwin. simpl. by rewrite Hav.
Qed.

Lemma do_moves_reachable (ms : list Z) (b b' : Board) :
  reachable b -> do_moves ms b = Done b' -> reachable b'.
Proof.
  revert b. induction ms as [|m ms IH]; intros b Hb; simpl.
  - by intros [= <-].
  - destruct (do_move m b) as [b1|e b1] eqn:Hm; [|done].
    apply IH. apply (reachable_move m b b1 Hb); [|done].
    apply do_move_Done_iff. by exists b1.
Qed.

Lemma position_reachable (w h n : Z) (ms : list Z) :
  init_board 0 (new_board w h n) = Done (position w h n []) ->
  do_moves ms (position w h n []) = Done (position w h n ms) ->
  reachable (position w h n ms).
Proof.
  intros Hinit Hms.
  apply (do_moves_reachable ms (position w h n [])); [|done].
  by apply (reachable_init 0 (new_board w h n)).
Qed.

Lemma full_game_no_run : ~ has_run (position 5 5 5 full_game).
Proof.
  intros (r & c & d & p & Hon & Hrun).
  change (width (position 5 5 5 full_game)) with 5 in *.
  change (height (position 5 5 5 full_game)) with 5 in *.
  change (n_in_row (position 5 5 5 full_game)) with 5 in *.
  pose proof (Hon 0 ltac:(lia)) as [Hr0 Hc0].
  pose proof (Hon 4 ltac:(lia)) as [Hr4 Hc4].
  pose proof (Hrun 0 ltac:(lia)) as H0.
  pose proof (Hrun 1 ltac:(lia)) as H1.
  pose proof (Hrun 2 ltac:(lia)) as H2.
  clear Hon Hrun.
  assert (Hr : r = 0 \/ r = 1 \/ r = 2 \/ r = 3 \/ r = 4) by lia.
  assert (Hc : c = 0 \/ c = 1 \/ c = 2 \/ c = 3 \/ c = 4) by lia.
  destruct d; simpl in Hr0, Hc0, Hr4, Hc4;
    destruct Hr as [->|[->|[->|[->| ->]]]]; try lia;
    destruct Hc as [->|[->|[->|[->| ->]]]]; try lia;
    vm_compute in H0, H1, H2; congruence.
Qed.

Lemma full_board_draw_witness :
  game_end (position 5 5 5 full_game) = Ret (true, -1).
Proof.
  apply (full_board_draw (position 5 5 5 full_game)
           (elements (moved_set (position 5 5 5 full_game)))).
  - apply reachable_ok, position_reachable; vm_compute; reflexivity.
  - reflexivity.
  - vm_compute. reflexivity.
  - exact full_game_no_run.
  - vm_compute. reflexivity.
  - reflexivity.
Defined.

(** ** Self-play *)

Lemma mask_assign_fmap {A} (f : A -> bool) (g : A -> Z) (v : Z) (l : list A) :
  mask_assign (f <$> l) v (g <$> l) = (fun x => if f x then v else g x) <$> l.
Proof.
  unfold mask_assign. induction l as [|x l IH]; simpl; [done|].
  f_equal. exact IH.
Qed.

Lemma winners_z_labels (winner : Z) (current_players : list Z) :
  winners_z winner current_players = outcome_label winner <$> current_players.
Proof.
  unfold winners_z, outcome_label.
  assert (Hz : replicate (length current_players) 0
               = (fun _ : Z => 0) <$> current_players).
  { induction current_players as [|p l IH]; simpl; [done|]. by rewrite IH. }
  rewrite Hz. destruct (winner =? -1); simpl.
  - apply list_fmap_ext. done.
  - rewrite !mask_assign_fmap. apply list_fmap_ext. intros _ p _. simpl.
    by destruct (p =? winner).
Qed.

Lemma mover_at_S (k : nat) :
  mover_at (S k) = if mover_at k =? player2 then player1 else player2.
Proof.
  unfold mover_at. rewrite Nat.even_succ, <- Nat.negb_even.
  by destruct (Nat.even k).
Qed.

Lemma do_move_Done_inv (m : Z) (b b' : Board) :
  do_move m b = Done b' ->
  current_player b' = (if current_player b =? player2 then player1 else player2)
  /\ length (availables b) = S (length (availables b')).
Proof.
  unfold do_move; simpl.
  destruct (list_remove m (availables b)) as [r|] eqn:Hr; [|done].
  intros [= <-]. simpl. split; [done|]. by eapply list_remove_length.
Qed.

Lemma game_end_in_going (moved : list Z) (b : Board) (w : Z) :
  game_end_in moved b = Ret (false, w) -> length (availables b) ≠ 0%nat.
Proof.
  unfold game_end_in.
  destruct (has_a_winner_in moved b) as [[e w']|]; simpl; [|done].
  destruct e; [done|].
  destruct (availables b); simpl; [done|]. intros _. lia.
Qed.

Section GameFacts.

Context {Agent Probs : Type}.
Variable get_action : Agent -> Board -> Z * Probs * Agent.
Variable reset_player : Agent -> Agent.
Variable set_order : gset Z -> list Z.

Local Abbreviation loop := (self_play_loop get_action reset_player set_order).

(** The loop never runs out of fuel when it is given more turns than
    there are available moves: it returns or raises. *)
Lemma self_play_loop_fuel (fuel : nat) (agent : Agent) (b : Board)
    (ss : list tensor) (ps : list Probs) (cps : list Z) :
  (length (availables b) < fuel)%nat ->
  loop fuel agent b ss ps cps ≠ None.
Proof.
  revert agent b ss ps cps.
  induction fuel as [|fuel IH]; intros agent b ss ps cps Hlt; [lia|].
  simpl. destruct (get_action agent b) as [[move probs] agent'].
  destruct (current_state b) as [s|e]; [|done].
  destruct (do_move move b) as [b'|e b'] eqn:Hmove; [|done].
  destruct (game_end_in _ b') as [[[] w]|e] eqn:Hend; [done| |done].
  apply IH. apply do_move_Done_inv in Hmove as [_ Hlen].
  apply game_end_in_going in Hend. lia.
Qed.

Lemma start_self_play_returns (agent : Agent) (b : Board) :
  start_self_play get_action reset_player set_order agent b ≠ None.
Proof.
  unfold start_self_play, self_play_episode.
  destruct (init_board 0 b) as [b0|e b0]; [|done].
  pose proof (self_play_loop_fuel (S (length (availables b0))) agent b0 [] [] []
                ltac:(lia)) as H.
  destruct (loop _ agent b0 [] [] []) as [[ep|e]|]; done.
Qed.

Lemma self_play_loop_movers (fuel : nat) (agent : Agent) (b : Board)
    (ss : list tensor) (ps : list Probs) (cps : list Z) (ep : episode) :
  lists_in_step b ss ps cps ->
  loop fuel agent b ss ps cps = Some (Ret ep) ->
  length (ep_states ep) = length (ep_current_players ep)
  /\ length (ep_mcts_probs ep) = length (ep_current_players ep)
  /\ forall k p, ep_current_players ep !! k = Some p -> p = mover_at k.
Proof.
  revert agent b ss ps cps.
  induction fuel as [|fuel IH]; intros agent b ss ps cps Hinv; [done|].
  simpl. destruct (get_action agent b) as [[move probs] agent'].
  destruct (current_state b) as [s|e]; [|done].
  destruct (do_move move b) as [b'|e b'] eqn:Hmove; [|done].
  destruct Hinv as (Hss & Hps & Hcur & Hcps).
  apply do_move_Done_inv in Hmove as [Hflip _].
  assert (Hnext : lists_in_step b' (ss ++ [s]) (ps ++ [probs])
                    (cps ++ [current_player b])).
  { unfold lists_in_step. rewrite !length_app. simpl.
    split; [lia|]. split; [lia|]. split.
    - rewrite Hflip, Hcur, Nat.add_1_r. symmetry. apply mover_at_S.
    - intros k p Hk. apply lookup_app_Some in Hk as [Hk|[Hge Hk]].
      + by apply Hcps.
      + apply list_lookup_singleton_Some in Hk as [Hk0 <-].
        rewrite Hcur. f_equal. lia. }
  destruct (game_end_in _ b') as [[[] w]|e]; [|by apply IH|done].
  intros [= <-]. simpl. destruct Hnext as (H1 & H2 & _ & H4). done.
Qed.

(** C5. When [start_self_play] returns the winner and the labelled
    triples, the label of the [k]-th triple is the outcome for the player
    recorded at ply [k], who is the player to move at ply [k]: +1 when
    that player is the winner, -1 when there is a winner and it is the
    other player, 0 when there is no winner.  So all triples of the
    winner carry +1 and all triples of the loser -1, and in a draw every
    triple carries 0. *)
Theorem self_play_labels (agent : Agent) (b : Board) (winner : Z)
    (data : list (tensor * Probs * Z)) :
  start_self_play get_action reset_player set_order agent b
    = Some (Ret (winner, data)) ->
  exists ep,
    self_play_episode get_action reset_player set_order agent b = Some (Ret ep)
    /\ winner = ep_winner ep
    /\ length data = length (ep_current_players ep)
    /\ forall k s pr z,
         data !! k = Some (s, pr, z) ->
         ep_current_players ep !! k = Some (mover_at k)
         /\ z = outcome_label winner (mover_at k)
         /\ (winner = -1 -> z = 0)
         /\ (winner ≠ -1 -> mover_at k = winner -> z = 1)
         /\ (winner ≠ -1 -> mover_at k ≠ winner -> z = -1).
Proof.
  unfold start_self_play.
  destruct (self_play_episode _ _ _ agent b) as [[ep|e]|] eqn:Hep; [|done..].
  intros [= <- <-]. exists ep. split; [done|]. split; [done|].
  unfold self_play_episode in Hep.
  destruct (init_board 0 b) as [b0|e b0] eqn:Hinit; [|done].
  assert (Hcur : current_player b0 = player1).
  { unfold init_board in Hinit. destruct (_ || _); [done|].
    simpl in Hinit. by injection Hinit as <-. }
  apply self_play_loop_movers in Hep as (Hss & Hps & Hcps).
  2:{ unfold lists_in_step. simpl. repeat split; done. }
  rewrite winners_z_labels. unfold zip3. split.
  - rewrite !length_zip_with, length_fmap. lia.
  - intros k s pr z Hk.
    apply lookup_zip_with_Some in Hk as (sp & z' & Heq & _ & Hz).
    injection Heq as <- <-.
    apply list_lookup_fmap_Some in Hz as (p & -> & Hp).
    pose proof (Hcps k p Hp) as ->.
    split; [done|]. split; [done|].
    unfold outcome_label.
    destruct (Z.eqb_spec (ep_winner ep) (-1)) as [Hw|Hw];
      destruct (Z.eqb_spec (mover_at k) (ep_winner ep)) as [Hm|Hm];
      repeat split; intros; congruence.
Qed.

End GameFacts.

Lemma self_play_labels_witness :
  exists ep,
    self_play_episode first_move_agent (fun a => a) elements tt
      (new_board 3 3 3) = Some (Ret ep)
    /\ 1 = ep_winner ep
    /\ length small_game_data = length (ep_current_players ep)
    /\ forall k s pr z,
         small_game_data !! k = Some (s, pr, z) ->
         ep_current_players ep !! k = Some (mover_at k)
         /\ z = outcome_label 1 (mover_at k)
         /\ (1 = -1 -> z = 0)
         /\ (1 ≠ -1 -> mover_at k = 1 -> z = 1)
         /\ (1 ≠ -1 -> mover_at k ≠ 1 -> z = -1).
Proof.
  apply (self_play_labels first_move_agent (fun a => a) elements tt
           (new_board 3 3 3) 1 small_game_data).
  vm_compute. reflexivity.
Defined.

(** The labels of that game: seven plies, won by the first player. *)
Example small_game_labels :
  (fun t : tensor * unit * Z => snd t) <$> small_game_data
  = [1; -1; 1; -1; 1; -1; 1].
Proof. vm_compute. reflexivity. Qed.

(** ** Feature planes: writes to one plane *)

Lemma np_index_ok (dim i : Z) :
  0 <= i < dim -> np_index dim i = Ret (Z.to_nat i).
Proof.
  intros Hi. unfold np_index.
  destruct (Z.leb_spec (- dim) i); [|lia].
  destruct (Z.ltb_spec i dim); [|lia].
  destruct (Z.ltb_spec i 0); [lia|]. reflexivity.
Qed.

Lemma plane_set_view (d1 d2 v : Z) (P : plane) (g : nat -> nat -> Z)
    (rc : Z * Z) :
  plane_view (Z.to_nat d1) (Z.to_nat d2) P g ->
  index_ok d1 d2 rc ->
  exists P',
    plane_set d1 d2 v P rc = Ret P'
    /\ plane_view (Z.to_nat d1) (Z.to_nat d2) P'
         (fun r c =>
            if bool_decide ((Z.of_nat r, Z.of_nat c) = rc) then v else g r c).
Proof.
  intros [[Hlen Hrows] Hget] [Hr Hc]. destruct rc as [r0 c0]. simpl in *.
  unfold plane_set. simpl. rewrite !np_index_ok by done. simpl.
  eexists. split; [reflexivity|]. split; [split|].
  - by rewrite length_alter.
  - apply Forall_alter; [done|]. intros row _ Hrow. by rewrite length_insert.
  - intros r c Hrd Hcd. unfold plane_get.
    specialize (Hget r c Hrd Hcd). unfold plane_get in Hget.
    destruct (decide (r = Z.to_nat r0)) as [->|Hne].
    + rewrite list_lookup_alter_eq.
      destruct (P !! Z.to_nat r0) as [row|] eqn:Hrow; [simpl in *|done].
      assert (Hrl : length row = Z.to_nat d2).
      { rewrite Forall_forall in Hrows. apply Hrows.
        by eapply list_elem_of_lookup_2. }
      destruct (decide (c = Z.to_nat c0)) as [->|Hnc].
      * rewrite list_lookup_insert_eq by lia.
        rewrite bool_decide_eq_true_2; [done|]. f_equal; lia.
      * rewrite list_lookup_insert_ne by done.
        rewrite bool_decide_eq_false_2; [done|]. intros [= H1 H2]. lia.
    + rewrite list_lookup_alter_ne by done.
      rewrite bool_decide_eq_false_2; [done|]. intros [= H1 H2]. lia.
Qed.

Lemma plane_set_many_view (d1 d2 v : Z) (idx : list (Z * Z)) (P : plane)
    (g : nat -> nat -> Z) :
  plane_view (Z.to_nat d1) (Z.to_nat d2) P g ->
  Forall (index_ok d1 d2) idx ->
  exists P',
    plane_set_many d1 d2 v idx P = Ret P'
    /\ plane_view (Z.to_nat d1) (Z.to_nat d2) P'
         (fun r c =>
            if bool_decide ((Z.of_nat r, Z.of_nat c) ∈ idx) then v else g r c).
Proof.
  revert P g.
  induction idx as [|rc idx IH]; intros P g Hview Hidx; cbn [plane_set_many].
  - exists P. split; [done|]. destruct Hview as [Hshape Hget].
    split; [done|]. intros r c Hr Hc. cbv beta.
    rewrite bool_decide_eq_false_2 by apply not_elem_of_nil. by apply Hget.
  - apply Forall_cons in Hidx as [Hrc Hidx].
    destruct (plane_set_view d1 d2 v P g rc Hview Hrc) as (P1 & -> & Hview1).
    cbn [mbind res_bind]. destruct (IH P1 _ Hview1 Hidx) as (P' & -> & [Hshape Hget]).
    exists P'. split; [done|]. split; [done|]. intros r c Hr Hc.
    rewrite (Hget r c Hr Hc). cbv beta. f_equal.
    destruct (decide ((Z.of_nat r, Z.of_nat c) ∈ idx)) as [Hin|Hin].
    + rewrite !bool_decide_eq_true_2; [done| by right | done].
    + rewrite (bool_decide_eq_false_2 _ Hin).
      destruct (decide ((Z.of_nat r, Z.of_nat c) = rc)) as [Heq|Hne].
      * rewrite !bool_decide_eq_true_2; [done| rewrite Heq; by left | done].
      * rewrite !bool_decide_eq_false_2; [done| | done].
        intros Hin'. apply elem_of_cons in Hin' as [?|?]; done.
Qed.

(** ** Feature planes: writes to the array *)

Lemma np_zeros_view (k : nat) (d1 d2 : Z) :
  0 <= d1 -> 0 <= d2 ->
  exists T,
    np_zeros k d1 d2 = Ret T
    /\ tensor_view k (Z.to_nat d1) (Z.to_nat d2) T (fun _ _ _ => 0).
Proof.
  intros H1 H2. unfold np_zeros.
  destruct (Z.ltb_spec d1 0); [lia|]. destruct (Z.ltb_spec d2 0); [lia|].
  eexists. split; [reflexivity|]. split; [split|].
  - apply length_replicate.
  - apply Forall_replicate. split; [apply length_replicate|].
    apply Forall_replicate, length_replicate.
  - intros i r c Hi Hr Hc. unfold tensor_get, plane_get.
    rewrite lookup_replicate_2 by done. simpl.
    rewrite lookup_replicate_2 by done. simpl.
    by rewrite lookup_replicate_2.
Qed.

Lemma tensor_set_view (k : nat) (d1 d2 v : Z) (i : nat) (idx : list (Z * Z))
    (T : tensor) (f : nat -> nat -> nat -> Z) :
  tensor_view k (Z.to_nat d1) (Z.to_nat d2) T f ->
  (i < k)%nat ->
  Forall (index_ok d1 d2) idx ->
  exists T',
    tensor_set d1 d2 i v idx T = Ret T'
    /\ tensor_view k (Z.to_nat d1) (Z.to_nat d2) T'
         (fun j r c =>
            if bool_decide (j = i /\ (Z.of_nat r, Z.of_nat c) ∈ idx)
            then v else f j r c).
Proof.
  intros [[Hlen Hshape] Hget] Hi Hidx. unfold tensor_set.
  destruct (lookup_lt_is_Some_2 T i ltac:(lia)) as [P HP]. rewrite HP.
  assert (HPv : plane_view (Z.to_nat d1) (Z.to_nat d2) P (f i)).
  { split.
    - rewrite Forall_forall in Hshape. apply Hshape.
      by eapply list_elem_of_lookup_2.
    - intros r c Hr Hc. specialize (Hget i r c Hi Hr Hc).
      unfold tensor_get in Hget. by rewrite HP in Hget. }
  destruct (plane_set_many_view d1 d2 v idx P (f i) HPv Hidx)
    as (P' & -> & [HP'shape HP'get]).
  cbn [mbind res_bind]. eexists. split; [reflexivity|]. split; [split|].
  - by rewrite length_insert.
  - by apply Forall_insert.
  - intros j r c Hj Hr Hc. unfold tensor_get. cbv beta.
    destruct (decide (j = i)) as [->|Hne].
    + rewrite list_lookup_insert_eq by lia. simpl.
      rewrite (HP'get r c Hr Hc). f_equal.
      destruct (decide ((Z.of_nat r, Z.of_nat c) ∈ idx)).
      * by rewrite !bool_decide_eq_true_2.
      * rewrite !bool_decide_eq_false_2; [done| |done]. by intros [_ ?].
    + rewrite list_lookup_insert_ne by done.
      rewrite bool_decide_eq_false_2 by (by intros [? _]).
      by apply Hget.
Qed.

Lemma fill_planes_view (k : nat) (b : Board) (mc mo : list Z)
    (pl : list nat) (T : tensor) (f : nat -> nat -> nat -> Z) :
  tensor_view k (Z.to_nat (width b)) (Z.to_nat (height b)) T f ->
  Forall (fun i => (i < k)%nat) pl ->
  Forall (index_ok (width b) (height b)) (plane_index b <$> mc) ->
  Forall (index_ok (width b) (height b)) (plane_index b <$> mo) ->
  exists T',
    fill_planes b mc mo pl T = Ret T'
    /\ tensor_view k (Z.to_nat (width b)) (Z.to_nat (height b)) T'
         (fun j r c =>
            if bool_decide
                 (j ∈ pl
                  /\ (Z.of_nat r, Z.of_nat c)
                       ∈ plane_index b <$> (if Nat.even j then mo else mc))
            then 1 else f j r c).
Proof.
  intros Hview Hpl Hmc Hmo. revert T f Hview.
  induction pl as [|i pl IH]; intros T f Hview; cbn [fill_planes].
  - exists T. split; [done|]. destruct Hview as [Hshape Hget].
    split; [done|]. intros j r c Hj Hr Hc. cbv beta.
    rewrite bool_decide_eq_false_2; [by apply Hget|].
    intros [Hin _]. by apply not_elem_of_nil in Hin.
  - apply Forall_cons in Hpl as [Hi Hpl].
    destruct (tensor_set_view k (width b) (height b) 1 i
                (plane_index b <$> (if Nat.even i then mo else mc)) T f
                Hview Hi) as (T1 & -> & Hview1).
    { by destruct (Nat.even i). }
    cbn [mbind res_bind].
    destruct (IH Hpl T1 _ Hview1) as (T' & -> & [Hshape Hget]).
    exists T'. split; [done|]. split; [done|]. intros j r c Hj Hr Hc.
    rewrite (Hget j r c Hj Hr Hc). cbv beta. f_equal.
    rewrite (bool_decide_ext
               (j ∈ i :: pl
                /\ (Z.of_nat r, Z.of_nat c)
                     ∈ plane_index b <$> (if Nat.even j then mo else mc))
               ((j ∈ pl
                 /\ (Z.of_nat r, Z.of_nat c)
                      ∈ plane_index b <$> (if Nat.even j then mo else mc))
                \/ (j = i
                    /\ (Z.of_nat r, Z.of_nat c)
                         ∈ plane_index b <$> (if Nat.even i then mo else mc)))).
    + rewrite bool_decide_or. by repeat destruct (bool_decide _).
    + rewrite elem_of_cons. split.
      * intros [[->|Hin] HX]; [by right | by left].
      * intros [[Hin HX]|[-> HX]]; (split; [|done]); [by right | by left].
Qed.

Lemma tensor_view_ext (k d1 d2 : nat) (T : tensor)
    (f g : nat -> nat -> nat -> Z) :
  (forall j r c, f j r c = g j r c) ->
  tensor_view k d1 d2 T f -> tensor_view k d1 d2 T g.
Proof.
  intros Hfg [Hshape Hget]. split; [done|].
  intros j r c Hj Hr Hc. rewrite <- Hfg. by apply Hget.
Qed.

Lemma list_getitem_ok {A} (l : list A) (i : Z) :
  0 <= i < Z.of_nat (length l) ->
  exists x, l !! Z.to_nat i = Some x /\ list_getitem l i = Ret x.
Proof.
  intros Hi. unfold list_getitem.
  destruct (Z.ltb_spec i 0); [lia|].
  destruct (Z.leb_spec 0 i); [|lia].
  destruct (Z.ltb_spec i (Z.of_nat (length l))); [|lia]. simpl.
  destruct (lookup_lt_is_Some_2 l (Z.to_nat i) ltac:(lia)) as [x Hx].
  exists x. by rewrite Hx.
Qed.

Lemma clear_planes_view (k : nat) (b : Board) (pos : list Z) (T : tensor)
    (f : nat -> nat -> nat -> Z) :
  (feature_planes < k)%nat ->
  tensor_view k (Z.to_nat (width b)) (Z.to_nat (height b)) T f ->
  Forall (fun i => 0 <= i < Z.of_nat (length (states_sequence b))) pos ->
  (forall m p, (m, p) ∈ states_sequence b -> p ≠ -1 ->
     index_ok (width b) (height b) (plane_index b m)) ->
  exists T',
    clear_planes b pos T = Ret T'
    /\ tensor_view k (Z.to_nat (width b)) (Z.to_nat (height b)) T'
         (fun j r c => if existsb (clears b j r c) pos then 0 else f j r c).
Proof.
  intros Hk Hview Hpos Hhist. revert T f Hview.
  induction pos as [|i pos IH]; intros T f Hview; cbn [clear_planes existsb].
  - by exists T.
  - apply Forall_cons in Hpos as [Hi Hpos].
    destruct (list_getitem_ok (states_sequence b) i Hi) as ([m p] & Hmp & ->).
    cbn [mbind res_bind fst snd].
    assert (Hstep : exists T1,
      (if negb (p =? -1) && (i <? Z.of_nat feature_planes)
       then tensor_set (width b) (height b) (Z.to_nat i) 0 [plane_index b m] T
       else Ret T) = Ret T1
      /\ tensor_view k (Z.to_nat (width b)) (Z.to_nat (height b)) T1
           (fun j r c => if clears b j r c i then 0 else f j r c)).
    { destruct (Z.eqb_spec p (-1)) as [Hp|Hp]; simpl.
      - exists T. split; [done|]. revert Hview. apply tensor_view_ext.
        intros j r c. unfold clears. rewrite Hmp.
        destruct (Z.eqb_spec p (-1)); [|done]. simpl.
        by rewrite !andb_false_r.
      - destruct (Z.ltb_spec i (Z.of_nat feature_planes)) as [Hlt|Hge].
        + destruct (tensor_set_view k (width b) (height b) 0 (Z.to_nat i)
                      [plane_index b m] T f Hview) as (T1 & -> & Hview1).
          { unfold feature_planes in *. lia. }
          { apply Forall_singleton. apply (Hhist m p); [|done].
            by eapply list_elem_of_lookup_2. }
          exists T1. split; [done|]. revert Hview1. apply tensor_view_ext.
          intros j r c. unfold clears. rewrite Hmp.
          destruct (Z.eqb_spec p (-1)); [done|].
          destruct (Z.ltb_spec i (Z.of_nat feature_planes)); [|lia]. simpl.
          rewrite andb_true_r.
          destruct (decide (Z.to_nat i = j)) as [Hij|Hij].
          * rewrite (bool_decide_eq_true_2 _ Hij). simpl.
            destruct (decide (plane_index b m = (Z.of_nat r, Z.of_nat c)))
              as [Hrc|Hrc].
            -- rewrite !bool_decide_eq_true_2; [done..|].
               split; [done|]. rewrite Hrc. by left.
            -- rewrite !bool_decide_eq_false_2; [done..|].
               intros [_ Hin]. apply list_elem_of_singleton in Hin. done.
          * rewrite (bool_decide_eq_false_2 _ Hij). simpl.
            rewrite bool_decide_eq_false_2; [done|]. by intros [-> _].
        + exists T. split; [done|]. revert Hview. apply tensor_view_ext.
          intros j r c. unfold clears.
          destruct (Z.ltb_spec i (Z.of_nat feature_planes)); [lia|].
          by rewrite andb_false_r. }
    destruct Hstep as (T1 & -> & Hview1). cbn [mbind res_bind].
    destruct (IH Hpos T1 _ Hview1) as (T' & -> & Hview').
    exists T'. split; [done|]. revert Hview'. apply tensor_view_ext.
    intros j r c. simpl.
    by destruct (existsb _ pos), (clears b j r c i).
Qed.

Lemma fill_ones_view (k d1 d2 : nat) (T : tensor)
    (f : nat -> nat -> nat -> Z) :
  tensor_view k d1 d2 T f ->
  tensor_view k d1 d2 (fill_ones T)
    (fun j r c => if bool_decide (j = feature_planes) then 1 else f j r c).
Proof.
  intros [[Hlen Hshape] Hget]. unfold fill_ones. split; [split|].
  - by rewrite length_alter.
  - apply Forall_alter; [done|]. intros P _ [HPl HPr]. split.
    + by rewrite length_fmap.
    + apply Forall_fmap. eapply Forall_impl; [exact HPr|].
      intros row Hrow. simpl. by rewrite length_fmap.
  - intros j r c Hj Hr Hc. specialize (Hget j r c Hj Hr Hc).
    unfold tensor_get in *. cbv beta.
    destruct (decide (j = feature_planes)) as [->|Hne].
    + rewrite bool_decide_eq_true_2 by done.
      rewrite list_lookup_alter_eq.
      destruct (T !! feature_planes) as [P|]; [simpl in *|done].
      unfold plane_get in *. rewrite list_lookup_fmap.
      destruct (P !! r) as [row|]; [simpl in *|done].
      rewrite list_lookup_fmap. by destruct (row !! c).
    + rewrite bool_decide_eq_false_2 by done.
      by rewrite list_lookup_alter_ne.
Qed.

Lemma flip_rows_view (k d1 d2 : nat) (T : tensor)
    (f : nat -> nat -> nat -> Z) :
  tensor_view k d1 d2 T f ->
  tensor_view k d1 d2 (flip_rows T) (fun j r c => f j (d1 - S r)%nat c).
Proof.
  intros [[Hlen Hshape] Hget]. unfold flip_rows. split; [split|].
  - by rewrite length_fmap.
  - apply Forall_fmap. eapply Forall_impl; [exact Hshape|].
    intros P [HPl HPr]. simpl. split.
    + by rewrite length_reverse.
    + by apply Forall_reverse.
  - intros j r c Hj Hr Hc.
    specialize (Hget j (d1 - S r)%nat c Hj ltac:(lia) Hc).
    unfold tensor_get in *. rewrite list_lookup_fmap.
    destruct (T !! j) as [P|] eqn:HP; [simpl in *|done].
    assert (HPl : length P = d1).
    { rewrite Forall_forall in Hshape.
      by apply (Hshape P (list_elem_of_lookup_2 _ _ _ HP)). }
    unfold plane_get in *. rewrite reverse_lookup by lia.
    by rewrite HPl.
Qed.

(** ** Feature planes: the whole encoding *)

Lemma elem_of_moves_of (b : Board) (keep : Z -> bool) (m : Z) :
  m ∈ moves_of b keep <-> exists p, states b !! m = Some p /\ keep p = true.
Proof.
  unfold moves_of. rewrite list_elem_of_fmap. split.
  - intros ([m' p] & -> & Hin). apply list_elem_of_filter in Hin as [Hk Hin].
    apply elem_of_map_to_list in Hin. by exists p.
  - intros (p & Hp & Hk). exists (m, p). split; [done|].
    apply list_elem_of_filter. split; [done|]. by apply elem_of_map_to_list.
Qed.

Lemma plane_index_ok (b : Board) (m : Z) :
  0 < height b <= width b ->
  0 <= m < width b * height b ->
  index_ok (width b) (height b) (plane_index b m).
Proof.
  intros Hwh Hm. unfold index_ok, plane_index. simpl.
  pose proof (Z.mod_pos_bound m (height b) ltac:(lia)).
  assert (0 <= m / width b) by (apply Z.div_pos; lia).
  assert (m / width b < height b) by (apply Z.div_lt_upper_bound; lia).
  lia.
Qed.

Lemma board_ok_in_range (b : Board) (m : Z) :
  board_ok b -> m ∈ dom (states b) -> 0 <= m < width b * height b.
Proof.
  intros [_ _ _ Hcov] Hm.
  assert (Hin : m ∈ dom (states b) ∪ list_to_set (availables b))
    by (apply elem_of_union; by left).
  rewrite Hcov in Hin. apply elem_of_list_to_set, elem_of_seqZ in Hin. lia.
Qed.

Lemma even_range_bound (stop i : Z) :
  i ∈ even_range stop -> 0 <= i < stop.
Proof.
  unfold even_range. intros Hi.
  apply list_elem_of_fmap in Hi as (k & -> & Hk).
  apply elem_of_seqZ in Hk.
  pose proof (Z.div_mod (stop + 1) 2 ltac:(lia)).
  pose proof (Z.mod_pos_bound (stop + 1) 2 ltac:(lia)). lia.
Qed.

(** On a well-kept board [square_state] returns, except when a stone
    lies in a row that the planes, [width] rows high, do not have; that
    needs [height > width]. *)
Lemma square_state_view (b : Board) :
  board_ok b -> history_ok b ->
  0 < width b -> 0 < height b ->
  states b = ∅ \/ height b <= width b ->
  exists T,
    square_state b = Ret T
    /\ tensor_view (S feature_planes) (Z.to_nat (width b))
         (Z.to_nat (height b)) T (square_state_entry b).
Proof.
  intros Hok Hhist Hw Hh Hcase. unfold square_state.
  destruct (np_zeros_view (S feature_planes) (width b) (height b))
    as (T0 & -> & Hview0); [lia..|].
  cbn [mbind res_bind].
  assert (Hplayed : exists T1,
    (if bool_decide (states b = ∅) then Ret T0
     else
       T ← fill_planes b (moves_of b (fun p => p =? current_player b))
              (moves_of b (fun p => negb (p =? current_player b)))
              (seq 0 feature_planes) T0;
       clear_planes b
         (even_range (Z.of_nat (length (states_sequence b)) - 2)) T) = Ret T1
    /\ tensor_view (S feature_planes) (Z.to_nat (width b))
         (Z.to_nat (height b)) T1
         (fun j r c =>
            if bool_decide (states b = ∅) then 0
            else if existsb (clears b j r c)
                      (even_range (Z.of_nat (length (states_sequence b)) - 2))
            then 0
            else if bool_decide
                      (j ∈ seq 0 feature_planes
                       /\ (Z.of_nat r, Z.of_nat c)
                            ∈ plane_index b
                                <$> (if Nat.even j
                                     then moves_of b (fun p => negb (p =? current_player b))
                                     else moves_of b (fun p => p =? current_player b)))
            then 1 else 0)).
  { case_bool_decide as Hempty; [by exists T0|].
    destruct Hcase as [Hcase|Hcase]; [done|].
    assert (Hmoves : forall keep,
      Forall (index_ok (width b) (height b)) (plane_index b <$> moves_of b keep)).
    { intros keep. apply Forall_fmap, Forall_forall. intros m Hm. simpl.
      apply elem_of_moves_of in Hm as (p & Hp & _).
      apply plane_index_ok; [lia|]. apply (board_ok_in_range b m Hok).
      apply elem_of_dom. by exists p. }
    destruct (fill_planes_view (S feature_planes) b
                (moves_of b (fun p => p =? current_player b))
                (moves_of b (fun p => negb (p =? current_player b)))
                (seq 0 feature_planes) T0 _ Hview0)
      as (T1 & -> & Hview1); [|apply Hmoves..|].
    { apply Forall_forall. intros i Hi. apply elem_of_seq in Hi. lia. }
    cbn [mbind res_bind].
    destruct (clear_planes_view (S feature_planes) b
                (even_range (Z.of_nat (length (states_sequence b)) - 2))
                T1 _ ltac:(lia) Hview1) as (T2 & -> & Hview2).
    { apply Forall_forall. intros i Hi. apply even_range_bound in Hi. lia. }
    { intros m p Hin Hp. apply plane_index_ok; [lia|].
      apply (board_ok_in_range b m Hok). by apply (hist_moves b Hhist m p). }
    exists T2. split; [done|]. exact Hview2. }
  destruct Hplayed as (T1 & -> & Hview1). cbn [mbind res_bind].
  eexists. split; [reflexivity|]. unfold square_state_entry.
  destruct (_ mod 2 =? 0); simpl.
  - apply fill_ones_view in Hview1. exact Hview1.
  - exact Hview1.
Qed.

Lemma init_board_history_ok (sp : Z) (b0 b : Board) :
  init_board sp b0 = Done b -> history_ok b.
Proof.
  unfold init_board. destruct (_ || _); [done|].
  destruct (list_getitem players sp); [|done].
  intros [= <-]. split.
  - reflexivity.
  - intros m p Hin Hp.
    change (states_sequence _) with (replicate feature_planes (-1, -1)) in Hin.
    apply elem_of_replicate in Hin as [[= _ ->] _]. done.
Qed.

Lemma do_move_history_ok (m : Z) (b b' : Board) :
  history_ok b -> do_move m b = Done b' -> history_ok b'.
Proof.
  intros [Hlen Hmoves]. unfold do_move; simpl.
  destruct (list_remove m (availables b)); [|done].
  intros [= <-]. split; simpl.
  - unfold deque_appendleft. rewrite length_take. simpl. rewrite Hlen. done.
  - intros m' p Hin Hp. rewrite dom_insert_L.
    apply (subseteq_take feature_planes) in Hin.
    apply elem_of_cons in Hin as [[= -> ->]|Hin]; [set_solver|].
    apply elem_of_union. right. by apply (Hmoves m' p).
Qed.

Lemma reachable_history_ok (b : Board) : reachable b -> history_ok b.
Proof.
  induction 1 as [sp b0 b Hinit | m b b' _ IH Hin Hdo].
  - by eapply init_board_history_ok.
  - by eapply do_move_history_ok.
Qed.

Lemma current_state_view (b : Board) :
  reachable b -> 0 < width b -> 0 < height b ->
  states b = ∅ \/ height b <= width b ->
  exists T,
    current_state b = Ret T
    /\ tensor_view (S feature_planes) (Z.to_nat (width b))
         (Z.to_nat (height b)) T
         (fun j r c => square_state_entry b j (Z.to_nat (width b) - S r)%nat c).
Proof.
  intros Hr Hw Hh Hcase. unfold current_state.
  destruct (square_state_view b (reachable_ok b Hr) (reachable_history_ok b Hr)
              Hw Hh Hcase) as (T & -> & Hview).
  cbn [mbind res_bind]. eexists. split; [reflexivity|].
  by apply flip_rows_view.
Qed.

(** C4, as the code has it.  On every reachable board of positive width
    and height that is empty or at least as wide as it is high,
    [current_state] returns an array of [feature_planes + 1 = 9] planes,
    each of [width] rows of [height] entries. *)
Theorem current_state_shape (b : Board) :
  reachable b -> 0 < width b -> 0 < height b ->
  states b = ∅ \/ height b <= width b ->
  exists T,
    current_state b = Ret T
    /\ length T = 9%nat
    /\ Forall (fun P : plane =>
                 length P = Z.to_nat (width b)
                 /\ Forall (fun row => length row = Z.to_nat (height b)) P) T.
Proof.
  intros Hr Hw Hh Hcase.
  destruct (current_state_view b Hr Hw Hh Hcase) as (T & HT & [[Hlen Hsh] _]).
  exists T. split; [done|]. split; [done|]. exact Hsh.
Qed.

Lemma current_state_shape_witness :
  exists T,
    current_state (position 6 5 5 [7]) = Ret T
    /\ length T = 9%nat
    /\ Forall (fun P : plane =>
                 length P = Z.to_nat (width (position 6 5 5 [7]))
                 /\ Forall (fun row =>
                              length row = Z.to_nat (height (position 6 5 5 [7])))
                      P) T.
Proof.
  apply (current_state_shape (position 6 5 5 [7])).
  - apply position_reachable; vm_compute; reflexivity.
  - reflexivity.
  - reflexivity.
  - right. vm_compute. discriminate.
Defined.

(** C4, as stated, fails: on the empty board 6 cells wide and 5 high the
    planes have 6 rows of 5 entries, not [height = 5] rows of [width = 6]
    entries. *)
Lemma current_state_shape_transposed :
  width (position 6 5 5 []) = 6 /\ height (position 6 5 5 []) = 5
  /\ exists T,
       current_state (position 6 5 5 []) = Ret T
       /\ Forall (fun P : plane =>
                    length P = 6%nat /\ Forall (fun row => length row = 5%nat) P) T
       /\ ~ Forall (fun P : plane =>
                      length P = Z.to_nat (height (position 6 5 5 []))
                      /\ Forall (fun row =>
                                   length row
                                   = Z.to_nat (width (position 6 5 5 []))) P) T.
Proof.
  split; [reflexivity|]. split; [reflexivity|].
  eexists. split; [vm_compute; reflexivity|]. split.
  - repeat constructor.
  - intros H. apply Forall_cons in H as [[H _] _]. vm_compute in H. discriminate.
Qed.

(** ** Feature planes on a square board *)

Lemma plane_index_square (b : Board) (m : Z) (r c : nat) :
  width b = height b -> Z.of_nat c < width b ->
  plane_index b m = (Z.of_nat r, Z.of_nat c)
  <-> m = Z.of_nat r * width b + Z.of_nat c.
Proof.
  intros Hsq Hc. unfold plane_index. rewrite <- Hsq. split.
  - intros [= Hd Hm].
    pose proof (Z.div_mod m (width b) ltac:(lia)). lia.
  - intros ->.
    destruct (cell_decompose (width b) (Z.of_nat r) (Z.of_nat c) ltac:(lia))
      as [-> ->]. done.
Qed.

Lemma marks_owner (b : Board) (keep : Z -> bool) (r c : nat) :
  width b = height b -> Z.of_nat c < width b ->
  (Z.of_nat r, Z.of_nat c) ∈ plane_index b <$> moves_of b keep
  <-> exists p,
        states b !! (Z.of_nat r * width b + Z.of_nat c) = Some p
        /\ keep p = true.
Proof.
  intros Hsq Hc. rewrite list_elem_of_fmap. split.
  - intros (m & Heq & Hm). symmetry in Heq.
    apply plane_index_square in Heq; [|done..]. subst m.
    by apply elem_of_moves_of.
  - intros Hp. exists (Z.of_nat r * width b + Z.of_nat c). split.
    + symmetry. by apply plane_index_square.
    + by apply elem_of_moves_of.
Qed.

Lemma clears_square (b : Board) (i r c : nat) :
  width b = height b -> Z.of_nat c < width b ->
  clears b i r c (Z.of_nat i)
  = (Z.of_nat i <? Z.of_nat feature_planes)
    && match states_sequence b !! i with
       | Some (m', p) =>
           negb (p =? -1) && (m' =? Z.of_nat r * width b + Z.of_nat c)
       | None => false
       end.
Proof.
  intros Hsq Hc. unfold clears. rewrite Nat2Z.id.
  rewrite bool_decide_eq_true_2 by done. simpl. f_equal.
  destruct (states_sequence b !! i) as [[m' p]|]; [|done]. f_equal.
  destruct (Z.eqb_spec m' (Z.of_nat r * width b + Z.of_nat c)) as [Heq|Hne].
  - apply bool_decide_eq_true_2. by apply plane_index_square.
  - apply bool_decide_eq_false_2. intros H. apply Hne.
    by apply plane_index_square in H.
Qed.

Lemma clears_other (b : Board) (j r c : nat) (i : Z) :
  Z.to_nat i ≠ j -> clears b j r c i = false.
Proof.
  intros Hne. unfold clears. by rewrite bool_decide_eq_false_2.
Qed.

(** On a square board the entries of the first [feature_planes] planes
    are those of [plane_bit]. *)
Lemma square_state_entry_bit (b : Board) (i r c : nat) :
  history_ok b -> width b = height b -> Z.of_nat c < width b ->
  (i < feature_planes)%nat ->
  square_state_entry b i r c
  = plane_bit b i (Z.of_nat r * width b + Z.of_nat c).
Proof.
  intros [Hlen _] Hsq Hc Hi. unfold square_state_entry, plane_bit.
  rewrite (bool_decide_eq_false_2 (i = feature_planes)) by lia.
  rewrite andb_false_r, Hlen.
  change (even_range (Z.of_nat feature_planes - 2)) with [0; 2; 4].
  set (m := Z.of_nat r * width b + Z.of_nat c).
  assert (Hclear : existsb (clears b i r c) [0; 2; 4] = cleared_at b i m).
  { unfold cleared_at, feature_planes in *. cbn [existsb].
    destruct i as [|[|[|[|[|[|[|[|i]]]]]]]]; try lia.
    all: repeat match goal with
           | |- context [clears ?b' ?j ?r' ?c' ?k] =>
               first
                 [ rewrite (clears_other b' j r' c' k) by (simpl; lia)
                 | change k with (Z.of_nat j);
                   rewrite (clears_square b' j r' c' Hsq Hc) ]
           end; simpl; try reflexivity.
    all: rewrite ?orb_false_r; reflexivity. }
  assert (Hmark : forall keep,
    bool_decide
      (i ∈ seq 0 feature_planes
       /\ (Z.of_nat r, Z.of_nat c) ∈ plane_index b <$> moves_of b keep)
    = match states b !! m with Some p => keep p | None => false end).
  { intros keep. destruct (states b !! m) as [p|] eqn:Hp.
    - destruct (keep p) eqn:Hk.
      + apply bool_decide_eq_true_2. split; [apply elem_of_seq; lia|].
        apply marks_owner; [done..|]. by exists p.
      + apply bool_decide_eq_false_2. intros [_ Hin].
        apply marks_owner in Hin as (q & Hq & Hkq); [|done..].
        fold m in Hq. congruence.
    - apply bool_decide_eq_false_2. intros [_ Hin].
      apply marks_owner in Hin as (q & Hq & _); [|done..].
      fold m in Hq. congruence. }
  case_bool_decide as Hempty.
  - unfold owner_bit. rewrite Hempty, lookup_empty. by destruct (cleared_at _ _ _).
  - rewrite Hclear. destruct (cleared_at b i m); [done|].
    unfold owner_bit. destruct (Nat.even i); rewrite Hmark;
      destruct (states b !! m) as [p|]; try done;
      by destruct (p =? current_player b).
Qed.

(** C2, as the code has it.  On a reachable square board, for every
    plane [i] below [feature_planes] and every cell (r, c), the encoding
    returned by [current_state] holds [plane_bit] of the cell at row
    [height - 1 - r], column [c] of plane [i]: the ownership indicator of
    the specification, except that in planes 0, 2 and 4 the cell of the
    move at the same position of the history is cleared. *)
Theorem current_state_planes (b : Board) (i : nat) (r c : Z) :
  reachable b -> width b = height b ->
  (i < feature_planes)%nat ->
  0 <= r < height b -> 0 <= c < width b ->
  exists T,
    current_state b = Ret T
    /\ tensor_get T i (Z.to_nat (height b - 1 - r)) (Z.to_nat c)
       = Some (plane_bit b i (r * width b + c)).
Proof.
  intros Hr Hsq Hi Hrow Hcol.
  destruct (current_state_view b Hr ltac:(lia) ltac:(lia) ltac:(right; lia))
    as (T & HT & [_ Hget]).
  exists T. split; [done|].
  rewrite Hget by (unfold feature_planes in *; lia).
  f_equal.
  replace (Z.to_nat (width b) - S (Z.to_nat (height b - 1 - r)))%nat
    with (Z.to_nat r) by lia.
  rewrite (square_state_entry_bit b i (Z.to_nat r) (Z.to_nat c)
             (reachable_history_ok b Hr) Hsq ltac:(lia) Hi).
  by rewrite !Z2Nat.id by lia.
Qed.

Lemma current_state_planes_witness :
  exists T,
    current_state (position 15 15 5 [112; 113]) = Ret T
    /\ tensor_get T 1
         (Z.to_nat (height (position 15 15 5 [112; 113]) - 1 - 7))
         (Z.to_nat 7)
       = Some (plane_bit (position 15 15 5 [112; 113]) 1
                 (7 * width (position 15 15 5 [112; 113]) + 7)).
Proof.
  apply (current_state_planes (position 15 15 5 [112; 113]) 1 7 7).
  - apply position_reachable; vm_compute; reflexivity.
  - reflexivity.
  - unfold feature_planes. lia.
  - change (height (position 15 15 5 [112; 113])) with 15. lia.
  - change (width (position 15 15 5 [112; 113])) with 15. lia.
Defined.

(** C2, as stated, fails: after the single move 112 on the 15 x 15 board
    the player to move is the second player, the opponent holds cell 112
    (row 7, column 7, a row that the reversal of the rows leaves in
    place), and yet plane 0 of the encoding is zero everywhere. *)
Lemma plane_zero_drops_last_move :
  size (states (position 15 15 5 [112])) = 1%nat
  /\ current_player (position 15 15 5 [112]) = player2
  /\ states (position 15 15 5 [112]) !! 112 = Some player1
  /\ owner_bit (position 15 15 5 [112]) 0 112 = 1
  /\ exists T,
       current_state (position 15 15 5 [112]) = Ret T
       /\ T !! 0%nat = Some (replicate 15 (replicate 15 0))
       /\ tensor_get T 0 7 7 = Some 0
       /\ tensor_get T 0 7 7 ≠ Some (owner_bit (position 15 15 5 [112]) 0 112).
Proof.
  split; [vm_compute; reflexivity|].
  split; [vm_compute; reflexivity|].
  split; [vm_compute; reflexivity|].
  split; [vm_compute; reflexivity|].
  eexists. split; [vm_compute; reflexivity|].
  split; [vm_compute; reflexivity|].
  split; [vm_compute; reflexivity|].
  vm_compute. discriminate.
Qed.

(** The same position shows what the code does: plane 0 lacks the last
    move, plane 6 is the full indicator of the opponent's cells. *)
Example plane_bits_after_one_move :
  plane_bit (position 15 15 5 [112]) 0 112 = 0
  /\ plane_bit (position 15 15 5 [112]) 6 112 = 1
  /\ plane_bit (position 15 15 5 [112]) 1 112 = 0.
Proof. repeat split; vm_compute; reflexivity. Qed.

(** ** The loops of [get_line] end within their fuel *)

Lemma line_backward_fuel (b : Board) (dx dy : Z) (fuel extra : nat)
    (nx ny : Z) (line : string) :
  (dx = 1 /\ nx + 1 <= Z.of_nat fuel) \/ (dx = 0 /\ dy = 1 /\ ny + 1 <= Z.of_nat fuel) ->
  line_backward (fuel + extra) b dx dy nx ny line
  = line_backward fuel b dx dy nx ny line.
Proof.
  revert nx ny line. induction fuel as [|fuel IH]; intros nx ny line Hm.
  - simpl. destruct extra as [|extra]; [done|]. simpl.
    assert (Hout : in_board b nx ny = false).
    { unfold in_board. destruct Hm as [[_ H]|(_ & _ & H)].
      - destruct (Z.leb_spec 0 nx); [lia|done].
      - destruct (Z.leb_spec 0 ny); [lia|]. by rewrite !andb_false_r. }
    by rewrite Hout.
  - simpl. destruct (in_board b nx ny); [|done]. apply IH. lia.
Qed.

Lemma line_forward_fuel (b : Board) (dx dy : Z) (fuel extra : nat)
    (nx ny : Z) (line : string) :
  (dx = 1 /\ width b - nx <= Z.of_nat fuel)
  \/ (dx = 0 /\ dy = 1 /\ height b - ny <= Z.of_nat fuel) ->
  line_forward (fuel + extra) b dx dy nx ny line
  = line_forward fuel b dx dy nx ny line.
Proof.
  revert nx ny line. induction fuel as [|fuel IH]; intros nx ny line Hm.
  - simpl. destruct extra as [|extra]; [done|]. simpl.
    assert (Hout : in_board b nx ny = false).
    { unfold in_board. destruct Hm as [[_ H]|(_ & _ & H)].
      - destruct (Z.ltb_spec nx (width b)); [lia|]. by rewrite !andb_false_r.
      - destruct (Z.ltb_spec ny (height b)); [lia|]. by rewrite !andb_false_r. }
    by rewrite Hout.
  - simpl. destruct (in_board b nx ny); [|done]. apply IH. lia.
Qed.

(** More fuel than [line_fuel] does not change the line that [get_line]
    returns: neither loop is ever cut short. *)
Lemma get_line_fuel_enough (b : Board) (move dx dy : Z) (extra : nat) :
  0 < width b -> 0 <= move < width b * height b ->
  (dx, dy) ∈ directions ->
  get_line_within (line_fuel b + extra) b move dx dy = get_line b move dx dy.
Proof.
  intros Hw Hm Hd. unfold get_line, get_line_within, line_fuel.
  pose proof (Z.mod_pos_bound move (width b) Hw) as Hx.
  assert (Hy : 0 <= move / width b < height b).
  { split; [apply Z.div_pos; lia | apply Z.div_lt_upper_bound; lia]. }
  assert (Hdir : (dx = 1) \/ (dx = 0 /\ dy = 1)).
  { unfold directions in Hd. set_solver. }
  rewrite line_backward_fuel by lia.
  destruct (dict_getitem (states b) move) as [p|e]; [|done].
  cbn [mbind res_bind]. f_equal. apply line_forward_fuel. lia.
Qed.

(** * Further properties of the board *)

(** ** Coordinates: the two conversions are inverse to each other *)

(** X1. Every move on the board is given back by [location_to_move]
    from the location that [move_to_location] computes for it. *)
Theorem location_of_move_roundtrip (b : Board) (m : Z) :
  0 <= m < width b * height b ->
  location_to_move b (move_to_location b m) = m.
Proof.
  intros Hm. unfold move_to_location. rewrite location_to_move_spec.
  assert (Hw : width b ≠ 0) by nia.
  pose proof (Z.div_mod m (width b) Hw) as Hdm.
  rewrite bool_decide_eq_true_2 by lia. lia.
Qed.

Lemma location_of_move_roundtrip_witness :
  location_to_move (position 15 15 5 [])
    (move_to_location (position 15 15 5 []) 112) = 112.
Proof.
  apply (location_of_move_roundtrip (position 15 15 5 []) 112).
  change (width (position 15 15 5 [])) with 15.
  change (height (position 15 15 5 [])) with 15. lia.
Defined.

(** X2. Every location with both coordinates in range is given back by
    [move_to_location] from the move that [location_to_move] computes
    for it, and that move is on the board. *)
Theorem move_of_location_roundtrip (b : Board) (h w : Z) :
  0 <= h < height b -> 0 <= w < width b ->
  0 <= location_to_move b [h; w] < width b * height b
  /\ move_to_location b (location_to_move b [h; w]) = [h; w].
Proof.
  intros Hh Hw. rewrite location_to_move_spec.
  rewrite bool_decide_eq_true_2 by nia. split; [nia|].
  unfold move_to_location.
  by destruct (cell_decompose (width b) h w Hw) as [-> ->].
Qed.

Lemma move_of_location_roundtrip_witness :
  0 <= location_to_move (position 15 15 5 []) [7; 7]
    < width (position 15 15 5 []) * height (position 15 15 5 [])
  /\ move_to_location (position 15 15 5 [])
       (location_to_move (position 15 15 5 []) [7; 7]) = [7; 7].
Proof.
  apply (move_of_location_roundtrip (position 15 15 5 []) 7 7).
  - change (height (position 15 15 5 [])) with 15. lia.
  - change (width (position 15 15 5 [])) with 15. lia.
Defined.

(** ** [init_board] *)

(** [init_board] on a board narrower or lower than [n_in_row] raises
    the [Exception] of the source and leaves every attribute as it was,
    whatever the start player. *)
Theorem init_board_too_small (sp : Z) (b : Board) :
  width b < n_in_row b \/ height b < n_in_row b ->
  init_board sp b = Raised PyException b.
Proof.
  intros H. unfold init_board.
  destruct (Z.ltb_spec (width b) (n_in_row b)); [done|].
  destruct (Z.ltb_spec (height b) (n_in_row b)); [done|]. lia.
Qed.

Lemma init_board_too_small_witness :
  init_board 0 (new_board 4 15 5) = Raised PyException (new_board 4 15 5).
Proof.
  apply (init_board_too_small 0 (new_board 4 15 5)).
  left. simpl. lia.
Defined.

Lemma players_getitem (sp : Z) :
  list_getitem players sp
  = if bool_decide (-2 <= sp <= 1)
    then Ret (if (sp =? 0) || (sp =? -2) then player1 else player2)
    else Exc IndexError.
Proof.
  case_bool_decide as Hsp.
  - assert (H : sp = -2 \/ sp = -1 \/ sp = 0 \/ sp = 1) by lia.
    destruct H as [->|[->|[->| ->]]]; reflexivity.
  - unfold list_getitem.
    change (Z.of_nat (length players)) with 2.
    destruct (Z.ltb_spec sp 0).
    + destruct (Z.leb_spec 0 (sp + 2)); [lia|done].
    + destruct (Z.leb_spec 0 sp); [|lia].
      destruct (Z.ltb_spec sp 2); [lia|done].
Qed.

(** X3. [init_board] succeeds exactly when the board is at least
    [n_in_row] wide and high and the start player indexes [players]
    (-2 to 1); a call that raises leaves the board untouched, and a call
    that succeeds keeps the dimensions and forgets the whole previous
    game: the result only depends on the dimensions and the start
    player. *)
Theorem init_board_outcome (sp : Z) (b : Board) :
  match init_board sp b with
  | Done b' =>
      n_in_row b <= width b /\ n_in_row b <= height b /\ -2 <= sp <= 1
      /\ init_board sp (new_board (width b) (height b) (n_in_row b)) = Done b'
  | Raised e b' =>
      b' = b
      /\ ~ (n_in_row b <= width b /\ n_in_row b <= height b /\ -2 <= sp <= 1)
  end.
Proof.
  unfold init_board. cbn [width height n_in_row new_board].
  destruct (Z.ltb_spec (width b) (n_in_row b)); cbn [orb]; [split; [done|lia]|].
  destruct (Z.ltb_spec (height b) (n_in_row b)); [split; [done|lia]|].
  rewrite players_getitem. case_bool_decide as Hsp.
  - repeat split; lia.
  - split; [done|]. intros (_ & _ & H'). done.
Qed.

(** ** Sequences of [do_move] *)

Lemma do_move_availables (m : Z) (b b' : Board) :
  NoDup (availables b) -> do_move m b = Done b' ->
  NoDup (availables b')
  /\ forall y, y ∈ availables b' <-> y ∈ availables b /\ y ≠ m.
Proof.
  intros Hnd. unfold do_move; simpl.
  destruct (list_remove m (availables b)) as [r|] eqn:Hr; [|done].
  intros [= <-]. simpl. split.
  - by eapply list_remove_NoDup.
  - intros y. by apply list_remove_elem_of.
Qed.

Lemma do_move_Raised (m : Z) (b b' : Board) (e : exn) :
  do_move m b = Raised e b' -> e = ValueError /\ m ∉ availables b.
Proof.
  unfold do_move; simpl.
  destruct (list_remove m (availables b)) as [r|] eqn:Hr; [done|].
  intros [= <- _]. split; [done|]. by apply list_remove_None.
Qed.

Lemma do_moves_accepted (ms : list Z) (b : Board) :
  NoDup (availables b) ->
  match do_moves ms b with
  | Done _ => NoDup ms /\ Forall (fun m => m ∈ availables b) ms
  | Raised e _ =>
      e = ValueError /\ ~ (NoDup ms /\ Forall (fun m => m ∈ availables b) ms)
  end.
Proof.
  revert b. induction ms as [|m ms IH]; intros b Hnd; simpl.
  - split; constructor.
  - destruct (do_move m b) as [b1|e b1] eqn:Hm.
    + destruct (do_move_availables m b b1 Hnd Hm) as [Hnd1 Hav1].
      assert (Hin : m ∈ availables b) by (apply do_move_Done_iff; eauto).
      specialize (IH b1 Hnd1).
      destruct (do_moves ms b1) as [b2|e b2].
      * destruct IH as [Hms Hall]. split.
        -- apply NoDup_cons. split; [|done]. intros Hmem.
           rewrite Forall_forall in Hall. apply Hall, Hav1 in Hmem. by destruct Hmem.
        -- apply Forall_cons. split; [done|].
           eapply Forall_impl; [exact Hall|]. intros y Hy. by apply Hav1 in Hy as [? _].
      * destruct IH as [-> Hnot]. split; [done|]. intros [Hms Hall]. apply Hnot.
        apply NoDup_cons in Hms as [Hm' Hms]. apply Forall_cons in Hall as [_ Hall].
        split; [done|]. rewrite Forall_forall in Hall |- *.
        intros y Hy. apply Hav1. split; [by apply Hall|]. by intros ->.
    + apply do_move_Raised in Hm as [-> Hm]. split; [done|].
      intros [_ Hall]. by apply Forall_cons in Hall as [? _].
Qed.

(** X4. On a board fresh from [init_board], a sequence of moves is
    played to its end exactly when every move is a cell of the board and
    no move occurs twice; otherwise the first offending [do_move] raises
    [ValueError]. *)
Theorem do_moves_fresh (sp : Z) (b0 b : Board) (ms : list Z) :
  init_board sp b0 = Done b ->
  match do_moves ms b with
  | Done _ =>
      NoDup ms /\ Forall (fun m => 0 <= m < width b * height b) ms
  | Raised e _ =>
      e = ValueError
      /\ ~ (NoDup ms /\ Forall (fun m => 0 <= m < width b * height b) ms)
  end.
Proof.
  intros Hinit.
  pose proof (do_moves_accepted ms b (ok_nodup b (init_board_ok sp b0 b Hinit)))
    as Hacc.
  assert (Hav : availables b = seqZ 0 (width b * height b)).
  { unfold init_board in Hinit. destruct (_ || _); [done|].
    destruct (list_getitem players sp); [|done]. by injection Hinit as <-. }
  assert (Hiff : Forall (fun m => m ∈ availables b) ms
                 <-> Forall (fun m => 0 <= m < width b * height b) ms).
  { rewrite Hav. apply Forall_iff. intros m. rewrite elem_of_seqZ. lia. }
  destruct (do_moves ms b) as [b'|e b']; rewrite <- Hiff; exact Hacc.
Qed.

Lemma do_moves_fresh_witness :
  match do_moves [112; 3; 112] (position 15 15 5 []) with
  | Done _ =>
      NoDup [112; 3; 112]
      /\ Forall (fun m => 0 <= m < width (position 15 15 5 [])
                                  * height (position 15 15 5 []))
           [112; 3; 112]
  | Raised e _ =>
      e = ValueError
      /\ ~ (NoDup [112; 3; 112]
            /\ Forall (fun m => 0 <= m < width (position 15 15 5 [])
                                       * height (position 15 15 5 []))
                 [112; 3; 112])
  end.
Proof.
  apply (do_moves_fresh 0 (new_board 15 15 5) (position 15 15 5 [])
           [112; 3; 112]).
  vm_compute. reflexivity.
Defined.

Lemma other_player_involutive (p : Z) :
  p ∈ players -> other_player (other_player p) = p.
Proof.
  unfold players. intros Hp.
  apply elem_of_cons in Hp as [->|Hp]; [done|].
  apply elem_of_cons in Hp as [->|Hp]; [done|]. by apply elem_of_nil in Hp.
Qed.

Lemma turn_after_S (p : Z) (k : nat) :
  p ∈ players -> turn_after (other_player p) k = turn_after p (S k).
Proof.
  intros Hp. unfold turn_after. rewrite Nat.even_succ, <- Nat.negb_even.
  destruct (Nat.even k); simpl; [done|]. by apply other_player_involutive.
Qed.

Lemma do_moves_books (ms : list Z) (b b' : Board) :
  current_player b ∈ players ->
  do_moves ms b = Done b' ->
  width b' = width b /\ height b' = height b /\ n_in_row b' = n_in_row b
  /\ dom (states b') = dom (states b) ∪ list_to_set ms
  /\ length (availables b) = (length (availables b') + length ms)%nat
  /\ current_player b' = turn_after (current_player b) (length ms)
  /\ last_move b' = default (last_move b) (last ms).
Proof.
  revert b. induction ms as [|m ms IH]; intros b Hp; simpl.
  - intros [= <-]. repeat split; try done; try lia. set_solver.
  - destruct (do_move m b) as [b1|e b1] eqn:Hm; [|done].
    intros Hms.
    pose proof (do_move_Done_inv m b b1 Hm) as [Hcp Hlen].
    assert (Hb1 : width b1 = width b /\ height b1 = height b
                  /\ n_in_row b1 = n_in_row b
                  /\ states b1 = <[m := current_player b]> (states b)
                  /\ last_move b1 = m).
    { unfold do_move in Hm; simpl in Hm.
      destruct (list_remove m (availables b)); [|done].
      by injection Hm as <-. }
    destruct Hb1 as (Hw & Hh & Hn & Hst & Hlast).
    assert (Hp1 : current_player b1 ∈ players)
      by (rewrite Hcp; apply other_player_in).
    destruct (IH b1 Hp1 Hms) as (Hw' & Hh' & Hn' & Hdom & Hlen' & Hcp' & Hlast').
    repeat split; try congruence.
    + rewrite Hdom, Hst, dom_insert_L. set_solver.
    + lia.
    + rewrite Hcp', Hcp. by apply (turn_after_S (current_player b)).
    + rewrite Hlast', Hlast. destruct ms as [|m' ms]; [done|].
      rewrite last_cons_cons. simpl.
      destruct (last (m' :: ms)) eqn:Hl; [done|].
      by apply last_None in Hl.
Qed.

(** X5. After [init_board] and [k] moves played without error, the board
    has kept its dimensions, exactly the [k] moves are occupied, the
    available list has shrunk by [k], the player to move is the start
    player after an even [k] and the other player after an odd [k], and
    [last_move] is the last move played ([-1] when none). *)
Theorem do_moves_bookkeeping (sp : Z) (b0 b b' : Board) (ms : list Z) :
  init_board sp b0 = Done b ->
  do_moves ms b = Done b' ->
  width b' = width b0 /\ height b' = height b0
  /\ dom (states b') = list_to_set ms
  /\ size (states b') = length ms
  /\ length (availables b')
     = (Z.to_nat (width b0 * height b0) - length ms)%nat
  /\ current_player b' = turn_after (current_player b) (length ms)
  /\ last_move b' = default (-1) (last ms).
Proof.
  intros Hinit Hms.
  pose proof (init_board_ok sp b0 b Hinit) as Hok.
  pose proof (do_moves_accepted ms b (ok_nodup b Hok)) as Hacc.
  rewrite Hms in Hacc. destruct Hacc as [Hnd _].
  destruct (do_moves_books ms b b' (ok_player b Hok) Hms)
    as (Hw & Hh & _ & Hdom & Hlen & Hcp & Hlast).
  assert (Hb : width b = width b0 /\ height b = height b0 /\ states b = ∅
               /\ availables b = seqZ 0 (width b0 * height b0)
               /\ last_move b = -1).
  { unfold init_board in Hinit. destruct (_ || _); [done|].
    destruct (list_getitem players sp); [|done]. by injection Hinit as <-. }
  destruct Hb as (Hw0 & Hh0 & Hst & Hav & Hlm).
  rewrite Hst, dom_empty_L, (left_id_L ∅ (∪)) in Hdom.
  rewrite Hav, length_seqZ in Hlen. rewrite Hlm in Hlast.
  repeat split; try congruence; try lia.
  rewrite <- size_dom, Hdom. by apply size_list_to_set.
Qed.

Lemma do_moves_bookkeeping_witness :
  width (position 15 15 5 [112; 3; 7]) = width (new_board 15 15 5)
  /\ height (position 15 15 5 [112; 3; 7]) = height (new_board 15 15 5)
  /\ dom (states (position 15 15 5 [112; 3; 7])) = list_to_set [112; 3; 7]
  /\ size (states (position 15 15 5 [112; 3; 7])) = length [112; 3; 7]
  /\ length (availables (position 15 15 5 [112; 3; 7]))
     = (Z.to_nat (width (new_board 15 15 5) * height (new_board 15 15 5))
        - length [112; 3; 7])%nat
  /\ current_player (position 15 15 5 [112; 3; 7])
     = turn_after (current_player (position 15 15 5 [])) (length [112; 3; 7])
  /\ last_move (position 15 15 5 [112; 3; 7]) = default (-1) (last [112; 3; 7]).
Proof.
  apply (do_moves_bookkeeping 0 (new_board 15 15 5) (position 15 15 5 [])
           (position 15 15 5 [112; 3; 7]) [112; 3; 7]).
  - vm_compute. reflexivity.
  - vm_compute. reflexivity.
Defined.

Lemma take_app_take {A} (n : nat) (l k : list A) :
  take n (l ++ take n k) = take n (l ++ k).
Proof.
  rewrite !take_app, take_take. do 2 f_equal. lia.
Qed.

Lemma do_moves_history (ms : list Z) (b b' : Board) :
  length (states_sequence b) = feature_planes ->
  do_moves ms b = Done b' ->
  states_sequence b'
  = take feature_planes
      (reverse (zip ms (turns (current_player b) (length ms)))
       ++ states_sequence b).
Proof.
  revert b. induction ms as [|m ms IH]; intros b Hlen; simpl.
  - intros [= <-]. rewrite take_ge; [done|]. by rewrite Hlen.
  - destruct (do_move m b) as [b1|e b1] eqn:Hm; [|done]. intros Hms.
    pose proof (do_move_Done_inv m b b1 Hm) as [Hcp _].
    assert (Hseq : states_sequence b1
                   = take feature_planes ((m, current_player b) :: states_sequence b)).
    { unfold do_move in Hm; simpl in Hm.
      destruct (list_remove m (availables b)); [|done].
      by injection Hm as <-. }
    assert (Hlen1 : length (states_sequence b1) = feature_planes).
    { rewrite Hseq, length_take. simpl. rewrite Hlen. done. }
    rewrite (IH b1 Hlen1 Hms), Hseq, Hcp, take_app_take.
    rewrite reverse_cons, <- app_assoc. reflexivity.
Qed.

(** X6. After [init_board] and any moves played without error the
    history holds the last [feature_planes] moves with their movers, the
    most recent first, followed by the initial [(-1, -1)] entries while
    fewer than [feature_planes] moves have been played. *)
Theorem history_after_moves (sp : Z) (b0 b b' : Board) (ms : list Z) :
  init_board sp b0 = Done b ->
  do_moves ms b = Done b' ->
  states_sequence b'
  = take feature_planes
      (reverse (zip ms (turns (current_player b) (length ms)))
       ++ replicate feature_planes (-1, -1)).
Proof.
  intros Hinit Hms.
  pose proof (init_board_history_ok sp b0 b Hinit) as [Hlen _].
  rewrite (do_moves_history ms b b' Hlen Hms). do 2 f_equal.
  unfold init_board in Hinit. destruct (_ || _); [done|].
  destruct (list_getitem players sp); [|done]. by injection Hinit as <-.
Qed.

Lemma history_after_moves_witness :
  states_sequence (position 15 15 5 [112; 3; 7])
  = take feature_planes
      (reverse (zip [112; 3; 7]
                  (turns (current_player (position 15 15 5 []))
                     (length [112; 3; 7])))
       ++ replicate feature_planes (-1, -1)).
Proof.
  apply (history_after_moves 0 (new_board 15 15 5) (position 15 15 5 [])
           (position 15 15 5 [112; 3; 7]) [112; 3; 7]).
  - vm_compute. reflexivity.
  - vm_compute. reflexivity.
Defined.

(** The history of three moves, written out. *)
Example history_of_three_moves :
  states_sequence (position 15 15 5 [112; 3; 7])
  = [(7, 1); (3, 2); (112, 1); (-1, -1); (-1, -1); (-1, -1); (-1, -1); (-1, -1)].
Proof. vm_compute. reflexivity. Qed.

(** ** Stones and the last move *)

Lemma init_board_stones_ok (sp : Z) (b0 b : Board) :
  init_board sp b0 = Done b -> stones_ok b.
Proof.
  unfold init_board. destruct (_ || _); [done|].
  destruct (list_getitem players sp); [|done].
  intros [= <-]. split; simpl.
  - intros m p Hp. by rewrite lookup_empty in Hp.
  - by left.
Qed.

Lemma do_move_stones_ok (m : Z) (b b' : Board) :
  board_ok b -> stones_ok b -> do_move m b = Done b' -> stones_ok b'.
Proof.
  intros Hok [Hval _] Hm.
  assert (Hin : m ∈ availables b) by (apply do_move_Done_iff; eauto).
  assert (Hrange : 0 <= m).
  { assert (Hu : m ∈ dom (states b) ∪ list_to_set (availables b))
      by (apply elem_of_union; right; by apply elem_of_list_to_set).
    rewrite (ok_cover b Hok) in Hu.
    apply elem_of_list_to_set, elem_of_seqZ in Hu. lia. }
  unfold do_move in Hm; simpl in Hm.
  destruct (list_remove m (availables b)); [|done].
  injection Hm as <-. split; simpl.
  - intros m' p. rewrite lookup_insert. case_decide.
    + intros [= <-]. apply (ok_player b Hok).
    + apply Hval.
  - right. split; [lia|]. rewrite lookup_insert_eq. f_equal.
    symmetry. apply other_player_involutive, (ok_player b Hok).
Qed.

Lemma reachable_stones_ok (b : Board) : reachable b -> stones_ok b.
Proof.
  induction 1 as [sp b0 b Hinit | m b b' Hb IH Hin Hdo].
  - by eapply init_board_stones_ok.
  - eapply do_move_stones_ok; [by apply reachable_ok | done..].
Qed.

(** X7. On every reachable board each stone belongs to player 1 or
    player 2; [last_move] is -1 exactly while the board is empty, and
    otherwise the cell [last_move] holds a stone of the player who is
    not to move. *)
Theorem last_move_owner (b : Board) :
  reachable b ->
  (forall m p, states b !! m = Some p -> p = player1 \/ p = player2)
  /\ (last_move b = -1 <-> states b = ∅)
  /\ (last_move b ≠ -1 ->
      states b !! last_move b = Some (other_player (current_player b))).
Proof.
  intros Hr. destruct (reachable_stones_ok b Hr) as [Hval Hlast].
  split; [|split].
  - intros m p Hp. specialize (Hval m p Hp). unfold players in Hval.
    set_solver.
  - destruct Hlast as [[H1 H2]|[H1 H2]]; split; try done.
    intros Hempty. by rewrite Hempty, lookup_empty in H2.
  - destruct Hlast as [[H1 H2]|[H1 H2]]; done.
Qed.

Lemma last_move_owner_witness :
  (forall m p, states (position 15 15 5 [112; 3]) !! m = Some p ->
     p = player1 \/ p = player2)
  /\ (last_move (position 15 15 5 [112; 3]) = -1
      <-> states (position 15 15 5 [112; 3]) = ∅)
  /\ (last_move (position 15 15 5 [112; 3]) ≠ -1 ->
      states (position 15 15 5 [112; 3])
        !! last_move (position 15 15 5 [112; 3])
      = Some (other_player (current_player (position 15 15 5 [112; 3])))).
Proof.
  apply (last_move_owner (position 15 15 5 [112; 3])).
  apply position_reachable; vm_compute; reflexivity.
Defined.

(** ** The verdict of [has_a_winner] on reachable boards *)

Lemma moved_set_dom (b : Board) : board_ok b -> moved_set b = dom (states b).
Proof.
  intros [_ _ Hdis Hcov]. unfold moved_set. rewrite <- Hcov. set_solver.
Qed.

Lemma get_line_returns (b : Board) (move dx dy : Z) :
  is_Some (states b !! move) -> exists line, get_line b move dx dy = Ret line.
Proof.
  intros [p Hp]. unfold get_line, get_line_within, dict_getitem.
  rewrite Hp. cbn [mbind res_bind]. eauto.
Qed.

Lemma forbidden_scan_returns (b : Board) (move : Z) (target : string)
    (dirs : list (Z * Z)) (o3 o4 : Z) :
  is_Some (states b !! move) ->
  exists a, forbidden_scan b move target dirs o3 o4 = Ret a.
Proof.
  intros Hm. revert o3 o4.
  induction dirs as [|[dx dy] dirs IH]; intros o3 o4; cbn [forbidden_scan].
  - eauto.
  - destruct (get_line_returns b move dx dy Hm) as [line ->].
    cbn [mbind res_bind]. destruct (str_contains _ line); [eauto|]. apply IH.
Qed.

Lemma check_forbidden_move_returns (b : Board) (move player : Z) :
  is_Some (states b !! move) ->
  exists a, check_forbidden_move b move player = Ret a.
Proof.
  intros Hm. unfold check_forbidden_move.
  destruct (forbidden_scan_returns b move
              (if player =? player1 then "X"%string else "O"%string)
              directions 0 0 Hm) as [a ->].
  cbn [mbind res_bind]. destruct a as [a|[o3 o4]]; [eauto|].
  destruct (2 <=? o4); [eauto|]. destruct (2 <=? o3); eauto.
Qed.

Lemma last_move_forbidden_returns (b : Board) :
  stones_ok b ->
  exists a,
    last_move_forbidden b = Ret a
    /\ (a = true -> states b !! last_move b = Some player1).
Proof.
  intros [_ Hlast]. unfold last_move_forbidden.
  destruct Hlast as [[-> _]|[Hne Hl]]; [by exists false|].
  destruct (Z.eqb_spec (last_move b) (-1)); [done|].
  unfold dict_getitem. rewrite Hl. cbn [mbind res_bind].
  destruct (Z.eqb_spec (other_player (current_player b)) player1) as [Heq|Hneq].
  - destruct (check_forbidden_move_returns b (last_move b)
                (other_player (current_player b))) as [a ->]; [by rewrite Hl|].
    exists a. split; [done|]. intros _. congruence.
  - by exists false.
Qed.

Lemma run_from_player (b : Board) (m step p i : Z) :
  run_from b m step p = true -> p ≠ -1 -> 0 <= i < n_in_row b ->
  states b !! (m + i * step) = Some p.
Proof.
  unfold run_from. intros Hrun Hp Hi.
  rewrite forallb_forall in Hrun.
  specialize (Hrun i). unfold dict_get in Hrun.
  destruct (states b !! (m + i * step)) as [q|].
  - f_equal. apply Z.eqb_eq, Hrun, list_elem_of_In, elem_of_seqZ. lia.
  - exfalso. apply Hp. symmetry.
    apply Z.eqb_eq, Hrun, list_elem_of_In, elem_of_seqZ. lia.
Qed.

(** A turn of the cell loop that returns has found a line of [n_in_row]
    stones of the player it names. *)
Lemma check_cell_sound (b : Board) (m : Z) (a : bool * Z) :
  0 < width b -> 0 <= m < width b * height b ->
  (forall q, states b !! m = Some q -> q ≠ -1) ->
  check_cell b m = Ret (Some a) ->
  fst a = true /\ has_line_of b (n_in_row b) (snd a).
Proof.
  intros Hw Hm Hq.
  pose proof (Z.div_mod m (width b) ltac:(lia)) as Hdm.
  pose proof (Z.mod_pos_bound m (width b) Hw) as Hc.
  set (r := m / width b) in *. set (c := m mod width b) in *.
  assert (Hr : 0 <= r < height b) by nia.
  assert (Hmrc : m = r * width b + c) by lia.
  unfold check_cell, dict_getitem. fold r c.
  destruct (states b !! m) as [p|] eqn:Hp; [simpl|done].
  specialize (Hq p eq_refl).
  assert (Hfound : forall d,
    run_on_board (width b) (height b) r c d (n_in_row b) ->
    run_from b m (move_step (width b) d) p = true ->
    has_line_of b (n_in_row b) p).
  { intros d Hon Hrun. exists r, c, d. split; [done|].
    intros i Hi. rewrite line_cell_step, <- Hmrc.
    by apply run_from_player. }
  destruct (Z.leb_spec c (width b - n_in_row b)) as [Hcw|Hcw];
    destruct (Z.leb_spec r (height b - n_in_row b)) as [Hrh|Hrh];
    destruct (Z.leb_spec (n_in_row b - 1) c) as [Hnc|Hnc]; simpl;
    repeat match goal with
      | |- context [run_from ?b' ?m' ?s ?p'] =>
          let E := fresh "E" in destruct (run_from b' m' s p') eqn:E; simpl
      end; try done; intros [= <-]; (split; [done|]); simpl.
  all: first
    [ apply (Hfound Horizontal); [intros i Hi; simpl; lia | assumption]
    | apply (Hfound Vertical); [intros i Hi; simpl; lia | assumption]
    | apply (Hfound Diagonal); [intros i Hi; simpl; lia | assumption]
    | apply (Hfound AntiDiagonal); [intros i Hi; simpl; lia | assumption] ].
Qed.

(** The cell loop over cells that all hold stones: it passes every cell,
    or returns what the turn on one of the cells returns. *)
Lemma scan_cells_result (b : Board) (moved : list Z) :
  (forall m, m ∈ moved -> is_Some (states b !! m)) ->
  scan_cells b moved = Ret None
  \/ exists m a,
       m ∈ moved /\ check_cell b m = Ret (Some a)
       /\ scan_cells b moved = Ret (Some a).
Proof.
  induction moved as [|m moved IH]; intros Hall; cbn [scan_cells]; [by left|].
  destruct (Hall m ltac:(left)) as [p Hp].
  destruct (check_cell_owner b m p Hp) as [Hc|Hc]; rewrite Hc; cbn [mbind res_bind].
  - destruct IH as [IH|(m' & a & Hin & Hm' & Hs)].
    + intros m' Hm'. apply Hall. by right.
    + by left.
    + right. exists m', a. split; [by right|]. done.
  - right. exists m, (true, p). split; [left|]. by rewrite Hc.
Qed.

Lemma scan_cells_hit (b : Board) (moved : list Z) (m0 : Z) (a0 : bool * Z) :
  (forall m, m ∈ moved -> is_Some (states b !! m)) ->
  m0 ∈ moved -> check_cell b m0 = Ret (Some a0) ->
  exists m a,
    m ∈ moved /\ check_cell b m = Ret (Some a)
    /\ scan_cells b moved = Ret (Some a).
Proof.
  intros Hall Hin Hhit.
  destruct (scan_cells_result b moved Hall) as [Hnone|H]; [|done].
  exfalso. revert Hnone. clear Hall.
  induction moved as [|m moved IH]; [by apply elem_of_nil in Hin|].
  cbn [scan_cells]. apply elem_of_cons in Hin as [<-|Hin].
  - rewrite Hhit. done.
  - destruct (check_cell b m) as [[a|]|e]; cbn [mbind res_bind]; try done.
    by apply IH.
Qed.

Lemma moved_cells_stones (b : Board) (moved : list Z) :
  board_ok b -> moved ≡ₚ elements (moved_set b) ->
  forall m, m ∈ moved <-> m ∈ dom (states b).
Proof.
  intros Hok Hperm m. by rewrite Hperm, elem_of_elements, moved_set_dom.
Qed.

(** X8. On a reachable board, and for every order of the played cells,
    [has_a_winner] and [game_end] raise no exception.  [has_a_winner]
    answers (False, -1) or (True, p) with [p] one of the two players;
    [game_end] answers (True, p) with the same [p], or (True, -1) when
    nothing was found and no move is available, or (False, -1) when
    nothing was found and a move is available. *)
Theorem game_end_verdict (b : Board) (moved : list Z) :
  reachable b -> moved ≡ₚ elements (moved_set b) ->
  (has_a_winner_in moved b = Ret (false, -1)
   /\ game_end_in moved b
      = Ret (if bool_decide (availables b = []) then (true, -1) else (false, -1)))
  \/ exists p,
       p ∈ players
       /\ has_a_winner_in moved b = Ret (true, p)
       /\ game_end_in moved b = Ret (true, p).
Proof.
  intros Hr Hperm.
  pose proof (reachable_ok b Hr) as Hok.
  pose proof (reachable_stones_ok b Hr) as Hst.
  assert (Hall : forall m, m ∈ moved -> is_Some (states b !! m)).
  { intros m Hm. apply elem_of_dom. by apply (moved_cells_stones b moved Hok Hperm). }
  assert (Hno : has_a_winner_in moved b = Ret (false, -1) ->
    has_a_winner_in moved b = Ret (false, -1)
    /\ game_end_in moved b
       = Ret (if bool_decide (availables b = []) then (true, -1) else (false, -1))).
  { intros H. split; [done|]. unfold game_end_in. rewrite H. simpl.
    destruct (availables b); by simpl. }
  assert (Hyes : forall p, p ∈ players ->
    has_a_winner_in moved b = Ret (true, p) ->
    exists p, p ∈ players /\ has_a_winner_in moved b = Ret (true, p)
              /\ game_end_in moved b = Ret (true, p)).
  { intros p Hp H. exists p. split; [done|]. split; [done|].
    by apply game_end_in_won. }
  unfold has_a_winner_in in *.
  destruct (Z.of_nat (length moved) <? n_in_row b); [left; by apply Hno|].
  destruct (scan_cells_result b moved Hall) as [Hs|(m & a & Hm & Hc & Hs)];
    rewrite Hs in *; cbn [mbind res_bind] in *.
  - destruct (last_move_forbidden_returns b Hst) as ([] & Hf & _);
      rewrite Hf in *; cbn [mbind res_bind] in *.
    + right. apply (Hyes player2); [|done].
      unfold players. apply elem_of_cons. right. apply elem_of_cons. by left.
    + left. by apply Hno.
  - destruct (Hall m Hm) as [p Hp].
    destruct (check_cell_owner b m p Hp) as [H|H]; rewrite H in Hc; [done|].
    injection Hc as <-. right. apply (Hyes p); [|done].
    by apply (stones_players b Hst m).
Qed.

Lemma game_end_verdict_witness :
  (has_a_winner (position 15 15 5 overline_game) = Ret (false, -1)
   /\ game_end (position 15 15 5 overline_game)
      = Ret (if bool_decide (availables (position 15 15 5 overline_game) = [])
             then (true, -1) else (false, -1)))
  \/ exists p,
       p ∈ players
       /\ has_a_winner (position 15 15 5 overline_game) = Ret (true, p)
       /\ game_end (position 15 15 5 overline_game) = Ret (true, p).
Proof.
  apply (game_end_verdict (position 15 15 5 overline_game)
           (elements (moved_set (position 15 15 5 overline_game)))).
  - apply position_reachable; vm_compute; reflexivity.
  - reflexivity.
Defined.

(** X9. A win reported by [has_a_winner] on a reachable board is one of
    two things: a line of [n_in_row] stones of the reported player, or
    a win of the second player that the forbidden-move test on the last
    move, a move of the first player, produced.  In particular a win
    reported while the first player is to move is always a line. *)
Theorem has_a_winner_sound (b : Board) (moved : list Z) (p : Z) :
  reachable b -> 0 < width b ->
  moved ≡ₚ elements (moved_set b) ->
  has_a_winner_in moved b = Ret (true, p) ->
  has_line_of b (n_in_row b) p
  \/ (p = player2
      /\ current_player b = player2
      /\ states b !! last_move b = Some player1
      /\ last_move_forbidden b = Ret true).
Proof.
  intros Hr Hw Hperm.
  pose proof (reachable_ok b Hr) as Hok.
  pose proof (reachable_stones_ok b Hr) as Hst.
  assert (Hall : forall m, m ∈ moved -> is_Some (states b !! m)).
  { intros m Hm. apply elem_of_dom. by apply (moved_cells_stones b moved Hok Hperm). }
  unfold has_a_winner_in.
  destruct (Z.of_nat (length moved) <? n_in_row b); [done|].
  destruct (scan_cells_result b moved Hall) as [Hs|(m & a & Hm & Hc & Hs)];
    rewrite Hs; cbn [mbind res_bind].
  - destruct (last_move_forbidden_returns b Hst) as ([] & Hf & Hlast);
      rewrite Hf; cbn [mbind res_bind]; [|done].
    intros [= <-]. right. specialize (Hlast eq_refl).
    split; [done|]. split; [|done].
    destruct (stones_last b Hst) as [[_ He]|[_ Hl]].
    + by rewrite He, lookup_empty in Hlast.
    + rewrite Hl in Hlast. injection Hlast as Hlast.
      pose proof (ok_player b Hok) as Hp. unfold players in Hp.
      apply elem_of_cons in Hp as [Hp|Hp]; [by rewrite Hp in Hlast|].
      apply elem_of_cons in Hp as [Hp|Hp]; [done|]. by apply elem_of_nil in Hp.
  - intros [= ->]. left.
    assert (Hdom : m ∈ dom (states b))
      by (by apply (moved_cells_stones b moved Hok Hperm)).
    apply (check_cell_sound b m (true, p) Hw); [|  | done].
    + by apply (board_ok_in_range b m Hok).
    + intros q Hq ->. apply (stones_players b Hst) in Hq.
      unfold players in Hq. set_solver.
Qed.

Lemma has_a_winner_sound_witness :
  has_line_of (position 15 15 5 overline_game)
    (n_in_row (position 15 15 5 overline_game)) player1
  \/ (player1 = player2
      /\ current_player (position 15 15 5 overline_game) = player2
      /\ states (position 15 15 5 overline_game)
           !! last_move (position 15 15 5 overline_game) = Some player1
      /\ last_move_forbidden (position 15 15 5 overline_game) = Ret true).
Proof.
  apply (has_a_winner_sound (position 15 15 5 overline_game)
           (elements (moved_set (position 15 15 5 overline_game))) player1).
  - apply position_reachable; vm_compute; reflexivity.
  - reflexivity.
  - reflexivity.
  - vm_compute. reflexivity.
Defined.

Lemma has_line_of_shorter (b : Board) (k k' p : Z) :
  k' <= k -> has_line_of b k p -> has_line_of b k' p.
Proof.
  intros Hk (r & c & d & Hon & Hrun). exists r, c, d. split.
  - intros i Hi. apply Hon. lia.
  - intros i Hi. apply Hrun. lia.
Qed.

(** X10. On a reachable board on which some player holds a line of
    [n_in_row] stones, [has_a_winner] reports a win, for every order of
    the played cells, and the player it names holds such a line; the
    forbidden-move test is not consulted. *)
Theorem has_a_winner_complete (b : Board) (moved : list Z) (p : Z) :
  reachable b -> 0 < width b -> 0 < n_in_row b ->
  moved ≡ₚ elements (moved_set b) ->
  has_line_of b (n_in_row b) p ->
  exists q,
    has_a_winner_in moved b = Ret (true, q)
    /\ has_line_of b (n_in_row b) q
    /\ scan_cells b moved = Ret (Some (true, q)).
Proof.
  intros Hr Hw Hn Hperm (r & c & d & Hon & Hrun).
  pose proof (reachable_ok b Hr) as Hok.
  pose proof (reachable_stones_ok b Hr) as Hst.
  pose proof (moved_cells_stones b moved Hok Hperm) as Hmem.
  assert (Hall : forall m, m ∈ moved -> is_Some (states b !! m)).
  { intros m Hm. apply elem_of_dom. by apply Hmem. }
  assert (Hcells : forall m, m ∈ run_cells (width b) r c d (n_in_row b) ->
                     m ∈ dom (states b)).
  { intros m Hm. apply elem_of_run_cells in Hm as (i & Hi & ->).
    apply elem_of_dom. rewrite (Hrun i Hi). done. }
  assert (Hlen : n_in_row b <= Z.of_nat (length moved)).
  { rewrite Hperm, moved_set_dom by done.
    change (length (elements ?X)) with (size X).
    assert (Hsub : list_to_set (run_cells (width b) r c d (n_in_row b))
                   ⊆ dom (states b)).
    { intros m Hm. apply elem_of_list_to_set in Hm. by apply Hcells. }
    apply subseteq_size in Hsub.
    rewrite size_list_to_set in Hsub by (by eapply run_cells_NoDup).
    rewrite run_cells_length in Hsub. lia. }
  assert (Hstart : r * width b + c ∈ moved).
  { apply Hmem, Hcells, elem_of_run_cells. exists 0. split; [lia|].
    rewrite line_cell_step. lia. }
  destruct (scan_cells_hit b moved (r * width b + c) (true, p) Hall Hstart
              (check_cell_run b r c d p Hn Hon Hrun))
    as (m & a & Hm & Hc & Hs).
  assert (Hdom : m ∈ dom (states b)) by (by apply Hmem).
  destruct (check_cell_sound b m a Hw (board_ok_in_range b m Hok Hdom))
    as [Ha Hline]; [| done |].
  { intros q Hq ->. apply (stones_players b Hst) in Hq.
    unfold players in Hq. set_solver. }
  destruct a as [e q]. simpl in *. subst e. exists q.
  split; [|done]. by apply has_a_winner_in_found.
Qed.

(** The first player's row of six in [overline_game]. *)
Lemma overline_game_line :
  has_line_of (position 15 15 5 overline_game) 6 player1.
Proof.
  exists 0, 0, Horizontal. split.
  - intros i Hi.
    change (width (position 15 15 5 overline_game)) with 15.
    change (height (position 15 15 5 overline_game)) with 15.
    unfold row_step, col_step. lia.
  - intros i Hi.
    assert (H : i = 0 \/ i = 1 \/ i = 2 \/ i = 3 \/ i = 4 \/ i = 5) by lia.
    destruct H as [->|[->|[->|[->|[->| ->]]]]]; vm_compute; reflexivity.
Qed.

Lemma has_a_winner_complete_witness :
  exists q,
    has_a_winner (position 15 15 5 overline_game) = Ret (true, q)
    /\ has_line_of (position 15 15 5 overline_game)
         (n_in_row (position 15 15 5 overline_game)) q
    /\ scan_cells (position 15 15 5 overline_game)
         (elements (moved_set (position 15 15 5 overline_game)))
       = Ret (Some (true, q)).
Proof.
  apply (has_a_winner_complete (position 15 15 5 overline_game)
           (elements (moved_set (position 15 15 5 overline_game))) player1).
  - apply position_reachable; vm_compute; reflexivity.
  - reflexivity.
  - reflexivity.
  - reflexivity.
  - apply (has_line_of_shorter _ 6); [|exact overline_game_line].
    change (n_in_row (position 15 15 5 overline_game)) with 5. lia.
Defined.

(** X11. The overline never counts against the first player.  On a
    reachable board where the first player holds [n_in_row + 1] stones
    in a line and the second player holds no line of [n_in_row],
    [has_a_winner] and [game_end] report the first player as winner,
    for every order of the played cells. *)
Theorem overline_wins (b : Board) (moved : list Z) :
  reachable b -> 0 < width b -> 0 < n_in_row b ->
  moved ≡ₚ elements (moved_set b) ->
  has_line_of b (n_in_row b + 1) player1 ->
  ~ has_line_of b (n_in_row b) player2 ->
  has_a_winner_in moved b = Ret (true, player1)
  /\ game_end_in moved b = Ret (true, player1).
Proof.
  intros Hr Hw Hn Hperm Hover Hno.
  pose proof (reachable_ok b Hr) as Hok.
  pose proof (reachable_stones_ok b Hr) as Hst.
  pose proof (moved_cells_stones b moved Hok Hperm) as Hmem.
  assert (Hall : forall m, m ∈ moved -> is_Some (states b !! m)).
  { intros m Hm. apply elem_of_dom. by apply Hmem. }
  destruct (has_line_of_shorter b (n_in_row b + 1) (n_in_row b) player1
              ltac:(lia) Hover)
    as (r & c & d & Hon & Hrun).
  assert (Hcells : forall m, m ∈ run_cells (width b) r c d (n_in_row b) ->
                     m ∈ dom (states b)).
  { intros m Hm. apply elem_of_run_cells in Hm as (i & Hi & ->).
    apply elem_of_dom. rewrite (Hrun i Hi). done. }
  assert (Hlen : n_in_row b <= Z.of_nat (length moved)).
  { rewrite Hperm, moved_set_dom by done.
    change (length (elements ?X)) with (size X).
    assert (Hsub : list_to_set (run_cells (width b) r c d (n_in_row b))
                   ⊆ dom (states b)).
    { intros m Hm. apply elem_of_list_to_set in Hm. by apply Hcells. }
    apply subseteq_size in Hsub.
    rewrite size_list_to_set in Hsub by (by eapply run_cells_NoDup).
    rewrite run_cells_length in Hsub. lia. }
  assert (Hstart : r * width b + c ∈ moved).
  { apply Hmem, Hcells, elem_of_run_cells. exists 0. split; [lia|].
    rewrite line_cell_step. lia. }
  destruct (scan_cells_hit b moved (r * width b + c) (true, player1) Hall Hstart
              (check_cell_run b r c d player1 Hn Hon Hrun))
    as (m & a & Hm & Hc & Hs).
  assert (Hdom : m ∈ dom (states b)) by (by apply Hmem).
  destruct (Hall m Hm) as [q Hq].
  assert (Hqp : q ∈ players) by (by apply (stones_players b Hst m)).
  destruct (check_cell_sound b m a Hw (board_ok_in_range b m Hok Hdom))
    as [Ha Hline]; [| done |].
  { intros q' Hq' ->. apply (stones_players b Hst) in Hq'.
    unfold players in Hq'. set_solver. }
  destruct (check_cell_owner b m q Hq) as [H|H]; rewrite H in Hc; [done|].
  injection Hc as <-. simpl in Hline.
  assert (q = player1) as ->.
  { unfold players in Hqp. apply elem_of_cons in Hqp as [->|Hqp]; [done|].
    apply elem_of_cons in Hqp as [->|Hqp]; [done|]. by apply elem_of_nil in Hqp. }
  assert (Hwin : has_a_winner_in moved b = Ret (true, player1))
    by (by apply has_a_winner_in_found).
  split; [done|]. by apply game_end_in_won.
Qed.

(** The stones of the second player in [overline_game]. *)
Lemma overline_game_second_player (m : Z) :
  states (position 15 15 5 overline_game) !! m = Some player2 ->
  m ∈ [30; 62; 94; 126; 158].
Proof.
  intros H. apply elem_of_map_to_list in H.
  assert (Hall : Forall (fun mp : Z * Z =>
                           snd mp = player2 -> fst mp ∈ [30; 62; 94; 126; 158])
                   (map_to_list (states (position 15 15 5 overline_game)))).
  { apply (bool_decide_unpack _). vm_compute. reflexivity. }
  rewrite Forall_forall in Hall. by apply (Hall (m, player2)).
Qed.

Lemma overline_game_no_second_line :
  ~ has_line_of (position 15 15 5 overline_game)
      (n_in_row (position 15 15 5 overline_game)) player2.
Proof.
  intros (r & c & d & _ & Hrun).
  change (n_in_row (position 15 15 5 overline_game)) with 5 in Hrun.
  change (width (position 15 15 5 overline_game)) with 15 in Hrun.
  pose proof (overline_game_second_player _ (Hrun 0 ltac:(lia))) as H0.
  pose proof (overline_game_second_player _ (Hrun 1 ltac:(lia))) as H1.
  rewrite line_cell_step in H0, H1.
  repeat (apply elem_of_cons in H0 as [H0|H0]);
    try (by apply elem_of_nil in H0);
    repeat (apply elem_of_cons in H1 as [H1|H1]);
    try (by apply elem_of_nil in H1);
    destruct d; unfold move_step in H0, H1; lia.
Qed.

Lemma overline_wins_witness :
  has_a_winner (position 15 15 5 overline_game) = Ret (true, player1)
  /\ game_end (position 15 15 5 overline_game) = Ret (true, player1).
Proof.
  apply (overline_wins (position 15 15 5 overline_game)
           (elements (moved_set (position 15 15 5 overline_game)))).
  - apply position_reachable; vm_compute; reflexivity.
  - reflexivity.
  - reflexivity.
  - reflexivity.
  - exact overline_game_line.
  - exact overline_game_no_second_line.
Defined.

(** ** Pattern counting *)

Lemma prefix_length (pat line : string) :
  String.prefix pat line = true ->
  (String.length pat <= String.length line)%nat.
Proof.
  revert pat. induction line as [|a line IH]; intros [|c pat]; simpl;
    try done; try lia.
  destruct (ascii_dec c a); [|done]. intros H. apply IH in H. lia.
Qed.

Lemma count_from_bound (pat : string) (skip : nat) (line : string) :
  pat ≠ ""%string ->
  0 <= count_from pat skip line
  /\ ((skip <= String.length line)%nat ->
      count_from pat skip line * Z.of_nat (String.length pat) + Z.of_nat skip
      <= Z.of_nat (String.length line)).
Proof.
  intros Hpat.
  assert (HL : (1 <= String.length pat)%nat) by (destruct pat; [done|simpl; lia]).
  revert skip. induction line as [|a line IH]; intros skip.
  - simpl. split; [lia|]. lia.
  - cbn [count_from]. destruct skip as [|k].
    + destruct (String.prefix pat (String a line)) eqn:Hpre.
      * apply prefix_length in Hpre. simpl in Hpre.
        destruct (IH (Nat.pred (String.length pat))) as [H0 H1].
        split; [lia|]. intros _. specialize (H1 ltac:(lia)).
        simpl String.length. nia.
      * destruct (IH O) as [H0 H1]. split; [done|]. intros _.
        specialize (H1 ltac:(lia)). simpl String.length. lia.
    + destruct (IH k) as [H0 H1]. split; [done|]. intros Hk.
      simpl in Hk. specialize (H1 ltac:(lia)). simpl String.length. lia.
Qed.

(** X12. [count_pattern] counts occurrences that do not overlap: the
    count is never negative, and the counted occurrences of a non-empty
    pattern fit side by side into the line. *)
Theorem count_pattern_fits (line pat : string) :
  pat ≠ ""%string ->
  0 <= count_pattern line pat
  /\ count_pattern line pat * Z.of_nat (String.length pat)
     <= Z.of_nat (String.length line).
Proof.
  intros Hpat. unfold count_pattern.
  destruct (count_from_bound pat O line Hpat) as [H0 H1].
  split; [done|]. specialize (H1 ltac:(lia)). lia.
Qed.

Lemma count_pattern_fits_witness :
  0 <= count_pattern ".XXXX..XXXX.XXXX." ".XXXX."
  /\ count_pattern ".XXXX..XXXX.XXXX." ".XXXX."
     * Z.of_nat (String.length ".XXXX.")
     <= Z.of_nat (String.length ".XXXX..XXXX.XXXX.").
Proof.
  apply (count_pattern_fits ".XXXX..XXXX.XXXX." ".XXXX.").
  discriminate.
Defined.

(** X13. [count_pattern] finds an occurrence of a non-empty pattern
    exactly when the pattern occurs in the line, that is when Python's
    [pat in line] holds. *)
Theorem count_pattern_positive (line pat : string) :
  pat ≠ ""%string ->
  0 < count_pattern line pat <-> str_contains pat line = true.
Proof.
  intros Hpat. unfold count_pattern.
  induction line as [|a line IH].
  - simpl. destruct pat; [done|]. simpl. split; [lia|done].
  - cbn [count_from str_contains].
    destruct (String.prefix pat (String a line)) eqn:Hpre.
    + pose proof (count_from_bound pat (Nat.pred (String.length pat)) line Hpat)
        as [H0 _].
      split; [done|]. intros _. lia.
    + simpl. exact IH.
Qed.

Lemma count_pattern_positive_witness :
  0 < count_pattern "..XXX.O" ".XXX." <-> str_contains ".XXX." "..XXX.O" = true.
Proof. apply (count_pattern_positive "..XXX.O" ".XXX."). discriminate. Defined.

(** ** The forbidden-move test as a whole *)




(** ** The lines of [get_line] along rows and columns *)

Lemma string_length_app (s1 s2 : string) :
  String.length (s1 ++ s2) = (String.length s1 + String.length s2)%nat.
Proof. induction s1 as [|a s1 IH]; simpl; [done|]. by rewrite IH. Qed.

Lemma cell_symbol_length (b : Board) (pos : Z) :
  String.length (cell_symbol b pos) = 1%nat.
Proof.
  unfold cell_symbol. destruct (states b !! pos) as [p|]; [|done].
  by destruct (p =? player1).
Qed.

(** A walk along a row or a column, towards the lower coordinates, adds
    one symbol for each cell down to coordinate 0. *)
Lemma line_backward_length (b : Board) (dx dy : Z) (fuel : nat) (nx ny : Z)
    (line : string) :
  (dx = 1 /\ dy = 0 /\ 0 <= ny < height b) \/ (dx = 0 /\ dy = 1 /\ 0 <= nx < width b) ->
  -1 <= nx < width b -> -1 <= ny < height b ->
  nx * dx + ny * dy + 1 <= Z.of_nat fuel ->
  String.length (line_backward fuel b dx dy nx ny line)
  = (String.length line + Z.to_nat (nx * dx + ny * dy + 1))%nat.
Proof.
  revert nx ny line. induction fuel as [|fuel IH]; intros nx ny line Hd Hx Hy Hf.
  - simpl. destruct Hd as [(-> & -> & ?)|(-> & -> & ?)]; lia.
  - cbn [line_backward]. unfold in_board.
    destruct (Z.leb_spec 0 nx); destruct (Z.ltb_spec nx (width b));
      destruct (Z.leb_spec 0 ny); destruct (Z.ltb_spec ny (height b));
      cbn [andb]; try lia;
      try (destruct Hd as [(-> & -> & ?)|(-> & -> & ?)]; lia).
    rewrite IH.
    + rewrite string_length_app, cell_symbol_length.
      destruct Hd as [(-> & -> & ?)|(-> & -> & ?)]; lia.
    + destruct Hd as [(-> & -> & ?)|(-> & -> & ?)]; [left|right]; lia.
    + destruct Hd as [(-> & -> & ?)|(-> & -> & ?)]; lia.
    + destruct Hd as [(-> & -> & ?)|(-> & -> & ?)]; lia.
    + destruct Hd as [(-> & -> & ?)|(-> & -> & ?)]; lia.
Qed.

(** The same towards the higher coordinates, up to the far edge. *)
Lemma line_forward_length (b : Board) (dx dy : Z) (fuel : nat) (nx ny : Z)
    (line : string) :
  (dx = 1 /\ dy = 0 /\ 0 <= ny < height b) \/ (dx = 0 /\ dy = 1 /\ 0 <= nx < width b) ->
  0 <= nx <= width b -> 0 <= ny <= height b ->
  (width b - nx) * dx + (height b - ny) * dy <= Z.of_nat fuel ->
  String.length (line_forward fuel b dx dy nx ny line)
  = (String.length line
     + Z.to_nat ((width b - nx) * dx + (height b - ny) * dy))%nat.
Proof.
  revert nx ny line. induction fuel as [|fuel IH]; intros nx ny line Hd Hx Hy Hf.
  - simpl. destruct Hd as [(-> & -> & ?)|(-> & -> & ?)]; lia.
  - cbn [line_forward]. unfold in_board.
    destruct (Z.leb_spec 0 nx); destruct (Z.ltb_spec nx (width b));
      destruct (Z.leb_spec 0 ny); destruct (Z.ltb_spec ny (height b));
      cbn [andb]; try lia;
      try (destruct Hd as [(-> & -> & ?)|(-> & -> & ?)]; lia).
    rewrite IH.
    + rewrite string_length_app, cell_symbol_length.
      destruct Hd as [(-> & -> & ?)|(-> & -> & ?)]; lia.
    + destruct Hd as [(-> & -> & ?)|(-> & -> & ?)]; [left|right]; lia.
    + destruct Hd as [(-> & -> & ?)|(-> & -> & ?)]; lia.
    + destruct Hd as [(-> & -> & ?)|(-> & -> & ?)]; lia.
    + destruct Hd as [(-> & -> & ?)|(-> & -> & ?)]; lia.
Qed.

(** X15. For a move that holds a stone on a board of positive width,
    the line that [get_line] reads along the row of the move has one
    symbol for every cell of the row, [width] in all, and the line along
    its column has [height] symbols: the lines span the board from edge
    to edge. *)
Theorem get_line_spans (b : Board) (move : Z) :
  0 < width b -> 0 <= move < width b * height b ->
  is_Some (states b !! move) ->
  exists row column,
    get_line b move 1 0 = Ret row
    /\ get_line b move 0 1 = Ret column
    /\ Z.of_nat (String.length row) = width b
    /\ Z.of_nat (String.length column) = height b.
Proof.
  intros Hw Hm [p Hp].
  pose proof (Z.mod_pos_bound move (width b) Hw) as Hx.
  assert (Hy : 0 <= move / width b < height b).
  { split; [apply Z.div_pos; lia | apply Z.div_lt_upper_bound; lia]. }
  unfold get_line, get_line_within, line_fuel, dict_getitem. rewrite Hp.
  cbn [mbind res_bind]. do 2 eexists. split; [reflexivity|].
  split; [reflexivity|]. split.
  - rewrite line_forward_length; [|left; lia|lia..].
    rewrite string_length_app, line_backward_length; [|left; lia|lia..].
    destruct (p =? player1); simpl String.length; lia.
  - rewrite line_forward_length; [|right; lia|lia..].
    rewrite string_length_app, line_backward_length; [|right; lia|lia..].
    destruct (p =? player1); simpl String.length; lia.
Qed.

Lemma get_line_spans_witness :
  exists row column,
    get_line (position 15 15 5 overline_game) 2 1 0 = Ret row
    /\ get_line (position 15 15 5 overline_game) 2 0 1 = Ret column
    /\ Z.of_nat (String.length row) = width (position 15 15 5 overline_game)
    /\ Z.of_nat (String.length column)
       = height (position 15 15 5 overline_game).
Proof.
  apply (get_line_spans (position 15 15 5 overline_game) 2).
  - reflexivity.
  - change (width (position 15 15 5 overline_game)) with 15.
    change (height (position 15 15 5 overline_game)) with 15. lia.
  - apply (bool_decide_unpack _). vm_compute. reflexivity.
Defined.

(** ** More on the feature planes *)

(** X16. On a reachable board of positive width and height that holds
    no stone, [current_state] returns the array whose first
    [feature_planes] planes are zero everywhere and whose last plane is
    one everywhere, whatever the shape of the board. *)
Theorem current_state_empty_board (b : Board) :
  reachable b -> 0 < width b -> 0 < height b -> states b = ∅ ->
  exists T,
    current_state b = Ret T
    /\ forall i r c,
         (i < S feature_planes)%nat ->
         (r < Z.to_nat (width b))%nat -> (c < Z.to_nat (height b))%nat ->
         tensor_get T i r c
         = Some (if bool_decide (i = feature_planes) then 1 else 0).
Proof.
  intros Hr Hw Hh Hempty.
  destruct (current_state_view b Hr Hw Hh (or_introl Hempty))
    as (T & HT & [_ Hget]).
  exists T. split; [done|]. intros i r c Hi Hrow Hcol.
  rewrite (Hget i r c Hi Hrow Hcol). f_equal.
  unfold square_state_entry. rewrite Hempty, map_size_empty.
  rewrite (bool_decide_eq_true_2 (∅ = ∅)) by done.
  change (Z.of_nat 0 mod 2 =? 0) with true. cbn [andb].
  by destruct (bool_decide (i = feature_planes)).
Qed.

Lemma current_state_empty_board_witness :
  exists T,
    current_state (position 6 5 5 []) = Ret T
    /\ forall i r c,
         (i < S feature_planes)%nat ->
         (r < Z.to_nat (width (position 6 5 5 [])))%nat ->
         (c < Z.to_nat (height (position 6 5 5 [])))%nat ->
         tensor_get T i r c
         = Some (if bool_decide (i = feature_planes) then 1 else 0).
Proof.
  apply (current_state_empty_board (position 6 5 5 [])).
  - apply position_reachable; vm_compute; reflexivity.
  - reflexivity.
  - reflexivity.
  - vm_compute. reflexivity.
Defined.

Lemma clears_colour_plane (b : Board) (r c : nat) (i : Z) :
  clears b feature_planes r c i = false.
Proof.
  unfold clears. destruct (decide (Z.to_nat i = feature_planes)) as [Hi|Hi].
  - destruct (Z.ltb_spec i (Z.of_nat feature_planes));
      [unfold feature_planes in *; lia|].
    by rewrite andb_false_r.
  - by rewrite bool_decide_eq_false_2.
Qed.

Lemma square_state_entry_colour (b : Board) (r c : nat) :
  square_state_entry b feature_planes r c
  = if Z.of_nat (size (states b)) mod 2 =? 0 then 1 else 0.
Proof.
  unfold square_state_entry.
  rewrite (bool_decide_eq_true_2 (feature_planes = feature_planes)) by done.
  rewrite andb_true_r. destruct (_ mod 2 =? 0); [done|].
  case_bool_decide; [done|].
  assert (Hno : forall l, existsb (clears b feature_planes r c) l = false).
  { intros l. induction l as [|i l IH]; [done|].
    simpl. by rewrite clears_colour_plane. }
  rewrite Hno. rewrite bool_decide_eq_false_2; [done|].
  intros [Hin _]. apply elem_of_seq in Hin. unfold feature_planes in Hin. lia.
Qed.

(** X17. In a game started by [init_board] and continued by moves played
    without error on a board at least as wide as high, the last plane
    of the encoding, the colour plane, is one everywhere when the
    player to move is the player who started the game, and zero
    everywhere when it is the other player. *)
Theorem colour_plane (sp : Z) (b0 b b' : Board) (ms : list Z) :
  init_board sp b0 = Done b ->
  do_moves ms b = Done b' ->
  0 < height b' <= width b' ->
  exists T,
    current_state b' = Ret T
    /\ forall r c,
         (r < Z.to_nat (width b'))%nat -> (c < Z.to_nat (height b'))%nat ->
         tensor_get T feature_planes r c
         = Some (if bool_decide (current_player b' = current_player b)
                 then 1 else 0).
Proof.
  intros Hinit Hms Hwh.
  assert (Hr : reachable b').
  { apply (do_moves_reachable ms b); [|done]. by apply (reachable_init sp b0). }
  destruct (current_state_view b' Hr ltac:(lia) ltac:(lia) ltac:(right; lia))
    as (T & HT & [_ Hget]).
  exists T. split; [done|]. intros r c Hrow Hcol.
  rewrite (Hget feature_planes r c ltac:(lia) Hrow Hcol). f_equal.
  rewrite square_state_entry_colour.
  pose proof (init_board_ok sp b0 b Hinit) as Hok.
  pose proof (do_moves_accepted ms b (ok_nodup b Hok)) as Hacc.
  rewrite Hms in Hacc. destruct Hacc as [Hnd _].
  destruct (do_moves_books ms b b' (ok_player b Hok) Hms)
    as (_ & _ & _ & Hdom & _ & Hcp & _).
  assert (Hst : states b = ∅).
  { unfold init_board in Hinit. destruct (_ || _); [done|].
    destruct (list_getitem players sp); [|done]. by injection Hinit as <-. }
  rewrite Hst, dom_empty_L, (left_id_L ∅ (∪)) in Hdom.
  assert (Hsize : size (states b') = length ms).
  { rewrite <- size_dom, Hdom. by apply size_list_to_set. }
  rewrite Hsize, Hcp. unfold turn_after.
  assert (Hother : other_player (current_player b) ≠ current_player b).
  { pose proof (ok_player b Hok) as Hp. unfold players in Hp.
    apply elem_of_cons in Hp as [->|Hp]; [done|].
    apply elem_of_cons in Hp as [->|Hp]; [done|]. by apply elem_of_nil in Hp. }
  destruct (Nat.even (length ms)) eqn:Heven.
  - rewrite bool_decide_eq_true_2 by done.
    apply Nat.even_spec in Heven as [k Hk].
    rewrite Hk, Nat2Z.inj_mul, Z.mul_comm, Z.mod_mul by lia. done.
  - rewrite bool_decide_eq_false_2 by done.
    assert (Hodd : Nat.odd (length ms) = true)
      by (by rewrite <- Nat.negb_even, Heven).
    apply Nat.odd_spec in Hodd as [k Hk].
    rewrite Hk, Nat2Z.inj_add, Nat2Z.inj_mul, Z.add_comm, Z.mul_comm.
    rewrite Z.mod_add by lia. done.
Qed.

Lemma colour_plane_witness :
  exists T,
    current_state (position 6 5 5 [7; 8; 9]) = Ret T
    /\ forall r c,
         lt r (Z.to_nat (width (position 6 5 5 [7; 8; 9]))) ->
         lt c (Z.to_nat (height (position 6 5 5 [7; 8; 9]))) ->
         tensor_get T feature_planes r c
         = Some (if bool_decide
                      (current_player (position 6 5 5 [7; 8; 9])
                       = current_player (position 6 5 5 []))
                 then 1 else 0).
Proof.
  apply (colour_plane 0 (new_board 6 5 5) (position 6 5 5 [])
           (position 6 5 5 [7; 8; 9]) [7; 8; 9]).
  - vm_compute. reflexivity.
  - vm_compute. reflexivity.
  - change (height (position 6 5 5 [7; 8; 9])) with 5.
    change (width (position 6 5 5 [7; 8; 9])) with 6. lia.
Defined.

(** ** Boards higher than wide *)

Lemma np_index_error (dim i : Z) (e : exn) :
  np_index dim i = Exc e -> e = IndexError.
Proof. unfold np_index. destruct (_ && _); [done|]. by intros [= <-]. Qed.

Lemma plane_set_error (d1 d2 v : Z) (P : plane) (rc : Z * Z) (e : exn) :
  plane_set d1 d2 v P rc = Exc e -> e = IndexError.
Proof.
  unfold plane_set.
  destruct (np_index d1 (fst rc)) as [i|e1] eqn:H1; cbn [mbind res_bind].
  - destruct (np_index d2 (snd rc)) as [j|e2] eqn:H2; cbn [mbind res_bind];
      [done|]. intros [= <-]. by eapply np_index_error.
  - intros [= <-]. by eapply np_index_error.
Qed.

Lemma plane_set_many_bad (d1 d2 v : Z) (idx : list (Z * Z)) (P : plane)
    (rc : Z * Z) :
  rc ∈ idx -> d1 <= fst rc ->
  plane_set_many d1 d2 v idx P = Exc IndexError.
Proof.
  intros Hin Hbad. revert P.
  induction idx as [|rc' idx IH]; intros P; [by apply elem_of_nil in Hin|].
  cbn [plane_set_many].
  destruct (plane_set d1 d2 v P rc') as [P'|e] eqn:Hset; cbn [mbind res_bind].
  - apply elem_of_cons in Hin as [<-|Hin]; [|by apply IH].
    unfold plane_set, np_index in Hset.
    destruct (Z.ltb_spec (fst rc) d1); [lia|].
    by rewrite andb_false_r in Hset.
  - f_equal. by eapply plane_set_error.
Qed.

Lemma tensor_set_error (d1 d2 : Z) (i : nat) (v : Z) (idx : list (Z * Z))
    (T : tensor) (e : exn) :
  tensor_set d1 d2 i v idx T = Exc e -> e = IndexError.
Proof.
  unfold tensor_set. destruct (T !! i) as [P|]; [|by intros [= <-]].
  revert P. induction idx as [|rc idx IH]; intros P; cbn [plane_set_many].
  - done.
  - destruct (plane_set d1 d2 v P rc) as [P'|e'] eqn:Hset; cbn [mbind res_bind].
    + apply IH.
    + intros [= <-]. by eapply plane_set_error.
Qed.

Lemma tensor_set_bad (d1 d2 : Z) (i : nat) (v : Z) (idx : list (Z * Z))
    (T : tensor) (rc : Z * Z) :
  rc ∈ idx -> d1 <= fst rc ->
  tensor_set d1 d2 i v idx T = Exc IndexError.
Proof.
  intros Hin Hbad. unfold tensor_set. destruct (T !! i) as [P|]; [|done].
  by rewrite (plane_set_many_bad d1 d2 v idx P rc Hin Hbad).
Qed.

Lemma fill_planes_bad (b : Board) (mc mo : list Z) (pl : list nat)
    (T : tensor) (i : nat) (m : Z) :
  i ∈ pl -> m ∈ (if Nat.even i then mo else mc) ->
  width b <= m / width b ->
  fill_planes b mc mo pl T = Exc IndexError.
Proof.
  intros Hi Hm Hbad. revert T.
  induction pl as [|j pl IH]; intros T; [by apply elem_of_nil in Hi|].
  cbn [fill_planes].
  destruct (tensor_set (width b) (height b) j 1
              (plane_index b <$> (if Nat.even j then mo else mc)) T)
    as [T'|e] eqn:Hset; cbn [mbind res_bind].
  - apply elem_of_cons in Hi as [<-|Hi]; [|by apply IH].
    rewrite (tensor_set_bad _ _ i 1 _ T (plane_index b m)) in Hset; [done| |done].
    apply list_elem_of_fmap. by exists m.
  - f_equal. by eapply tensor_set_error.
Qed.

(** X18. On a board higher than wide the planes, allocated with [width]
    rows, have no row for the cells below row [width - 1]: as soon as
    such a cell holds a stone, [current_state] raises [IndexError]. *)
Theorem current_state_tall_board (b : Board) (m p : Z) :
  0 <= width b -> 0 <= height b ->
  states b !! m = Some p ->
  width b <= m / width b ->
  current_state b = Exc IndexError.
Proof.
  intros Hw Hh Hp Hbad. unfold current_state, square_state.
  destruct (np_zeros_view (S feature_planes) (width b) (height b) Hw Hh)
    as (T0 & -> & _).
  cbn [mbind res_bind].
  rewrite bool_decide_eq_false_2.
  2:{ intros Hempty. by rewrite Hempty, lookup_empty in Hp. }
  assert (Hfill :
    fill_planes b (moves_of b (fun q => q =? current_player b))
      (moves_of b (fun q => negb (q =? current_player b)))
      (seq 0 feature_planes) T0 = Exc IndexError).
  { destruct (p =? current_player b) eqn:Hcp.
    - apply (fill_planes_bad b _ _ _ T0 1%nat m); [|simpl|done].
      + apply elem_of_seq. unfold feature_planes. lia.
      + apply elem_of_moves_of. by exists p.
    - apply (fill_planes_bad b _ _ _ T0 0%nat m); [|simpl|done].
      + apply elem_of_seq. unfold feature_planes. lia.
      + apply elem_of_moves_of. exists p. by rewrite Hcp. }
  by rewrite Hfill.
Qed.

Lemma current_state_tall_board_witness :
  current_state (position 5 6 5 [27]) = Exc IndexError.
Proof.
  apply (current_state_tall_board (position 5 6 5 [27]) 27 player1).
  - change (width (position 5 6 5 [27])) with 5. lia.
  - change (height (position 5 6 5 [27])) with 6. lia.
  - vm_compute. reflexivity.
  - change (width (position 5 6 5 [27])) with 5. vm_compute. discriminate.
Defined.

(** ** Whole games *)




Section PlayFacts.

Context {Agent1 Agent2 : Type}.
Variable get_action1 : Agent1 -> Board -> Z * Agent1.
Variable get_action2 : Agent2 -> Board -> Z * Agent2.
Variable set_player_ind1 : Z -> Agent1 -> Agent1.
Variable set_player_ind2 : Z -> Agent2 -> Agent2.
Variable set_order : gset Z -> list Z.
Hypothesis set_order_perm : forall X, set_order X ≡ₚ elements X.

Local Abbreviation loop2 := (play_loop get_action1 get_action2 set_order).



End PlayFacts.


(** The game of two [first_move_player]s on the 3 x 3 board with three
    in a row to win: the first player wins. *)
Example small_game_played :
  exists b,
    start_play first_move_player first_move_player (fun _ a => a)
      (fun _ a => a) elements tt tt 0 true (new_board 3 3 3)
    = Some (Played player1 b).
Proof. eexists. vm_compute. reflexivity. Qed.

(** ** Self-play episodes *)

Lemma do_move_size (m : Z) (b b' : Board) :
  board_ok b -> do_move m b = Done b' ->
  size (states b') = S (size (states b)).
Proof.
  intros Hok Hm.
  assert (Hin : m ∈ availables b) by (apply do_move_Done_iff; eauto).
  assert (Hfree : states b !! m = None).
  { apply not_elem_of_dom. intros Hd.
    apply (ok_disjoint b Hok m Hd). by apply elem_of_list_to_set. }
  unfold do_move in Hm; simpl in Hm.
  destruct (list_remove m (availables b)); [|done].
  injection Hm as <-. simpl. by apply map_size_insert_None.
Qed.

Lemma board_ok_size (b : Board) :
  board_ok b -> (size (states b) <= Z.to_nat (width b * height b))%nat.
Proof.
  intros Hok.
  assert (Hsub : dom (states b) ⊆ list_to_set (seqZ 0 (width b * height b))).
  { rewrite <- (ok_cover b Hok). set_solver. }
  apply subseteq_size in Hsub.
  rewrite size_dom, size_list_to_set, length_seqZ in Hsub by apply NoDup_seqZ.
  done.
Qed.

Section EpisodeFacts.

Context {Agent Probs : Type}.
Variable get_action : Agent -> Board -> Z * Probs * Agent.
Variable reset_player : Agent -> Agent.
Variable set_order : gset Z -> list Z.

Lemma self_play_loop_episode (fuel : nat) (agent : Agent) (b : Board)
    (ss : list tensor) (ps : list Probs) (cps : list Z) (ep : episode) :
  reachable b ->
  length ss = size (states b) ->
  self_play_loop get_action reset_player set_order fuel agent b ss ps cps
    = Some (Ret ep) ->
  reachable (ep_board ep)
  /\ game_end_in (set_order (moved_set (ep_board ep))) (ep_board ep)
     = Ret (true, ep_winner ep)
  /\ length (ep_states ep) = size (states (ep_board ep))
  /\ (1 <= length (ep_states ep))%nat.
Proof.
  revert agent b ss ps cps.
  induction fuel as [|fuel IH]; intros agent b ss ps cps Hr Hlen; [done|].
  cbn [self_play_loop].
  destruct (get_action agent b) as [[move probs] agent'].
  destruct (current_state b) as [s|e]; [|done].
  destruct (do_move move b) as [b1|e b1] eqn:Hm; [|done].
  assert (Hr1 : reachable b1).
  { apply (reachable_move move b b1 Hr); [|done].
    apply do_move_Done_iff. by exists b1. }
  assert (Hlen1 : length (ss ++ [s]) = size (states b1)).
  { rewrite length_app, (do_move_size move b b1 (reachable_ok b Hr) Hm).
    simpl. lia. }
  destruct (game_end_in (set_order (moved_set b1)) b1) as [[[] w]|e] eqn:Hend;
    [|by apply IH|done].
  intros [= <-]. cbn [ep_board ep_winner ep_states].
  repeat split; try done. rewrite length_app. simpl. lia.
Qed.

(** X20. When the self-play loop of [start_self_play] comes to its end
    without an exception, the board it leaves is reachable and is one
    on which [game_end] reports the end of the game with the winner
    that is returned; one state was recorded for each stone on that
    board, at least one and at most [width * height]. *)
Theorem self_play_episode_facts (agent : Agent) (b : Board) (ep : episode) :
  self_play_episode get_action reset_player set_order agent b = Some (Ret ep) ->
  reachable (ep_board ep)
  /\ game_end_in (set_order (moved_set (ep_board ep))) (ep_board ep)
     = Ret (true, ep_winner ep)
  /\ length (ep_states ep) = size (states (ep_board ep))
  /\ (1 <= length (ep_states ep)
      <= Z.to_nat (width (ep_board ep) * height (ep_board ep)))%nat.
Proof.
  unfold self_play_episode.
  destruct (init_board 0 b) as [b0|e b0] eqn:Hinit; [|done].
  intros Hloop.
  assert (Hr0 : reachable b0) by (by apply (reachable_init 0 b)).
  assert (Hst : states b0 = ∅).
  { unfold init_board in Hinit. destruct (_ || _); [done|].
    simpl in Hinit. by injection Hinit as <-. }
  destruct (self_play_loop_episode (S (length (availables b0))) agent b0
              [] [] [] ep Hr0) as (H1 & H2 & H3 & H4).
  - by rewrite Hst, map_size_empty.
  - exact Hloop.
  - repeat split; try done. rewrite H3.
    by apply board_ok_size, reachable_ok.
Qed.

End EpisodeFacts.

Lemma self_play_episode_facts_witness :
  match
    self_play_episode first_move_agent (fun a => a) elements tt (new_board 3 3 3)
  with
  | Some (Ret ep) =>
      reachable (ep_board ep)
      /\ game_end_in (elements (moved_set (ep_board ep))) (ep_board ep)
         = Ret (true, ep_winner ep)
      /\ length (ep_states ep) = size (states (ep_board ep))
      /\ (1 <= length (ep_states ep)
          <= Z.to_nat (width (ep_board ep) * height (ep_board ep)))%nat
  | _ => False
  end.
Proof.
  destruct (self_play_episode first_move_agent (fun a => a) elements tt
              (new_board 3 3 3)) as [[ep|e]|] eqn:Hep.
  - apply (self_play_episode_facts first_move_agent (fun a => a) elements tt
             (new_board 3 3 3) ep Hep).
  - vm_compute in Hep. discriminate.
  - vm_compute in Hep. discriminate.
Defined.
